(** * iMessage exporter: a shallow embedding of the core pipeline

    The development follows [imessage_export.py] (the unified command line
    application) and the sibling scripts [save_contact_mappings.py] and
    [extract_messages_final_correct.py]:

    - phone-number normalisation ([clean_phone_number]),
    - the [NSAttributedString] blob decoder ([decode_attributed_body]),
    - contact-name resolution ([resolve_contact_name],
      [resolve_participant_names]),
    - the row-by-row assembly of contacts and messages ([extract_messages]),
    - statistics ([calculate_statistics]) and the incremental merge of
      [cmd_update].

    Modelling conventions.
    - Identifiers and display names (Python [str]) are Rocq [string]s, one
      character per code point below 256; on that range the regular
      expression class [\d] is exactly ['0'..'9'].
    - Decoded message text is a list of Unicode code points ([list Z]),
      since the decoder inspects [ord(char)].
    - A blob ([bytes]) is a [list Z] of values in [0..255].
    - [None] and the empty string are both falsy in Python; where the code
      tests truthiness the model uses [truthy].
    - Dictionaries that are only probed by key are [gmap]s; the [contacts]
      dictionary of [extract_messages], whose insertion order is observable
      through [list(contacts.values())], is an association list. *)

From Stdlib Require Import ZArith List String Ascii Lia Bool QArith.
From Stdlib Require Import Sorting.Sorted Sorting.Permutation.
From Stdlib Require Import Numbers.DecimalString.
From stdpp Require Import gmap strings.

Import ListNotations.
Open Scope string_scope.

(** ** Python string helpers *)

(** [bool(s)] for a [str]. *)
Definition truthy (s : string) : bool :=
  match s with
  | EmptyString => false
  | String _ _ => true
  end.

(** [bool(x)] for a value that is [None] or a [str]. *)
Definition truthy_opt (o : option string) : bool :=
  match o with
  | Some s => truthy s
  | None => false
  end.

(** Python's [a or b] on values that are [None] or a [str]. *)
Definition py_or (a b : option string) : option string :=
  if truthy_opt a then a else b.

(** The character class [\d] on code points below 256. *)
Definition is_digit (c : ascii) : bool :=
  let n := nat_of_ascii c in
  (48 <=? n)%nat && (n <=? 57)%nat.

(** [re.sub(r'\D', '', s)]. *)
Fixpoint strip_non_digits (s : string) : string :=
  match s with
  | EmptyString => EmptyString
  | String c r =>
      if is_digit c then String c (strip_non_digits r) else strip_non_digits r
  end.

(** [s[-10:]]. *)
Definition last10 (s : string) : string :=
  String.substring (String.length s - 10) 10 s.

(** [s.startswith(p)]. *)
Definition startswith (s p : string) : bool := String.prefix p s.

(** [str.join]: [sep.join(l)]. *)
Fixpoint join (sep : string) (l : list string) : string :=
  match l with
  | [] => ""
  | [x] => x
  | x :: r => x +:+ sep +:+ join sep r
  end.

(** [str(n)] for a natural number. *)
Definition str_of_nat (n : nat) : string :=
  NilEmpty.string_of_uint (Nat.to_uint n).

(** ** Phone normalisation *)

Module SaveContactMappings.

(** [save_contact_mappings.py], [clean_phone_number]. *)
Definition clean_phone_number (phone : string) : string :=
  if negb (truthy phone) then ""
  else
    let cleaned := strip_non_digits phone in
    if (String.length cleaned =? 10)%nat then "1" +:+ cleaned else cleaned.

End SaveContactMappings.

(** [imessage_export.py], [clean_phone_number] (the same text appears in
    [extract_messages_final_correct.py] and [extract_attachments.py]). *)
Definition clean_phone_number (phone : string) : string :=
  if negb (truthy phone) then ""
  else
    let cleaned := strip_non_digits phone in
    let cleaned :=
      if (String.length cleaned =? 10)%nat then "1" +:+ cleaned
      else if (String.length cleaned =? 11)%nat && startswith cleaned "1"
           then cleaned
           else cleaned in
    if truthy cleaned then "+" +:+ cleaned else phone.

(** ** The mapping store *)

Record ChatInfo := mkChatInfo {
  display_name : string;
  participants : list string;
  resolved_display_name : option string
}.

Record Mappings := mkMappings {
  phone_to_name : gmap string string;
  group_chats : gmap string ChatInfo
}.

(** The loop [for variant in variants: if variant and variant in
    phone_to_name: return phone_to_name[variant]]; a [None] entry of the
    Python list is [None] here. *)
Fixpoint probe_variants (m : gmap string string) (vs : list (option string))
  : option string :=
  match vs with
  | [] => None
  | v :: r =>
      match v with
      | Some k =>
          if truthy k then
            match m !! k with
            | Some name => Some name
            | None => probe_variants m r
            end
          else probe_variants m r
      | None => probe_variants m r
      end
  end.

(** The digits of an identifier with the domestic prefix added, as computed
    inline by [resolve_contact_name] and [resolve_participant_names]. *)
Definition cleaned_digits (phone : string) : string :=
  let cleaned := strip_non_digits phone in
  if (String.length cleaned =? 10)%nat then "1" +:+ cleaned else cleaned.

(** The [variants] list of [resolve_contact_name]. *)
Definition variants (phone : string) : list (option string) :=
  let cleaned := cleaned_digits phone in
  [ Some cleaned;
    Some ("+" +:+ cleaned);
    if (10 <=? String.length cleaned)%nat
    then Some ("+1" +:+ last10 cleaned) else None;
    if (10 <=? String.length cleaned)%nat
    then Some (last10 cleaned) else None ].

(** [resolve_contact_name(phone, mappings)]. *)
Definition resolve_contact_name (phone : string) (mappings : Mappings)
  : option string :=
  let p2n := phone_to_name mappings in
  match p2n !! phone with
  | Some name => Some name
  | None => probe_variants p2n (variants phone)
  end.

(** [get_group_chat_info(chat_identifier, mappings)]: the pair of the display
    name ([display_name or resolved_display_name]) and the participants. *)
Definition get_group_chat_info (chat_identifier : string) (mappings : Mappings)
  : option string * list string :=
  match group_chats mappings !! chat_identifier with
  | Some info =>
      (py_or (Some (display_name info)) (resolved_display_name info),
       participants info)
  | None => (None, [])
  end.

(** The body of the inner loop of [resolve_participant_names]: the name found
    for one participant, or a falsy value. *)
Definition participant_name (p2n : gmap string string) (participant : string)
  : option string :=
  let name := p2n !! participant in
  if truthy_opt name then name
  else
    let cleaned := cleaned_digits participant in
    let name := py_or (p2n !! cleaned) (p2n !! ("+" +:+ cleaned)) in
    if negb (truthy_opt name) && (10 <=? String.length cleaned)%nat
    then p2n !! last10 cleaned
    else name.

(** The list [resolved_names] built by the inner loop: the truthy names, in
    participant order. *)
Fixpoint resolved_names (p2n : gmap string string) (ps : list string)
  : list string :=
  match ps with
  | [] => []
  | p :: r =>
      match participant_name p2n p with
      | Some name =>
          if truthy name then name :: resolved_names p2n r
          else resolved_names p2n r
      | None => resolved_names p2n r
      end
  end.

(** The display name synthesised from a non-empty list of resolved names. *)
Definition synthesized_name (names : list string) : string :=
  let base := join ", " (firstn 4 names) in
  if (4 <? List.length names)%nat
  then base +:+ " +" +:+ str_of_nat (List.length names - 4) +:+ " more"
  else base.

(** One iteration of the outer loop of [resolve_participant_names]: the new
    contents of [chat_info]. *)
Definition resolve_chat_info (p2n : gmap string string) (info : ChatInfo)
  : ChatInfo :=
  if truthy (display_name info) then info
  else
    match resolved_names p2n (participants info) with
    | [] => info
    | names =>
        mkChatInfo (display_name info) (participants info)
                   (Some (synthesized_name names))
    end.

(** [resolve_participant_names(group_chats, phone_to_name)]; the dictionary
    is updated in place, entry by entry. *)
Definition resolve_participant_names
  (gc : gmap string ChatInfo) (p2n : gmap string string)
  : gmap string ChatInfo :=
  resolve_chat_info p2n <$> gc.

Module SaveContactMappingsNames.

(** [save_contact_mappings.py], inner loop of [resolve_participant_names],
    which calls that file's [clean_phone_number]. *)
Definition participant_name (p2n : gmap string string) (participant : string)
  : option string :=
  let name := p2n !! participant in
  if truthy_opt name then name
  else
    let cleaned := SaveContactMappings.clean_phone_number participant in
    let name := py_or (p2n !! cleaned) (p2n !! ("+" +:+ cleaned)) in
    if negb (truthy_opt name) && (10 <=? String.length cleaned)%nat
    then p2n !! last10 cleaned
    else name.

End SaveContactMappingsNames.

(** ** Exceptions

    The decoder is wrapped in [try: ... except Exception: pass]; the model
    keeps the exceptions explicit so that what the handler absorbs can be
    stated. *)

Inductive exn := IndexError | UnicodeDecodeError.

Inductive result (A : Type) : Type :=
| Ok (a : A)
| Raise (e : exn).

Arguments Ok {A} a.
Arguments Raise {A} e.

Definition bind {A B : Type} (r : result A) (k : A -> result B) : result B :=
  match r with
  | Ok a => k a
  | Raise e => Raise e
  end.

Notation "'letr' x ':=' r 'in' k" := (bind r (fun x => k))
  (at level 10, x name, r at level 100, k at level 200).

(** [try: body except UnicodeDecodeError: handler]. *)
Definition except_unicode {A : Type} (body handler : result A) : result A :=
  match body with
  | Raise UnicodeDecodeError => handler
  | other => other
  end.

(** A loop [for x in l: ...] whose body either returns a value from the
    enclosing function ([Some]), or goes on to the next element ([None],
    by [continue] or by reaching the end of the body), or raises. *)
Fixpoint for_first {A B : Type} (body : A -> result (option B)) (l : list A)
  : result (option B) :=
  match l with
  | [] => Ok None
  | x :: r =>
      letr o := body x in
      match o with
      | Some b => Ok (Some b)
      | None => for_first body r
      end
  end.

(** ** Bytes *)

Definition bytes := list Z.

(** [blob[i]]. *)
Definition getitem (blob : bytes) (i : nat) : result Z :=
  match nth_error blob i with
  | Some b => Ok b
  | None => Raise IndexError
  end.

(** [blob[a:b]] for [0 <= a]. *)
Definition slice (blob : bytes) (a b : nat) : bytes :=
  firstn (b - a) (skipn a blob).

Fixpoint is_prefix (p l : bytes) : bool :=
  match p, l with
  | [], _ => true
  | _ :: _, [] => false
  | x :: p', y :: l' => (x =? y)%Z && is_prefix p' l'
  end.

(** Search [l], the part of the blob from offset [i] on. *)
Fixpoint find_from (p l : bytes) (i : nat) : option nat :=
  if is_prefix p l then Some i
  else
    match l with
    | [] => None
    | _ :: r => find_from p r (S i)
    end.

(** [blob.find(p, start)]; [None] stands for [-1]. *)
Definition find (blob p : bytes) (start : nat) : option nat :=
  if (start <=? List.length blob)%nat then find_from p (skipn start blob) start
  else None.

(** ** Strict UTF-8 *)

Definition text := list Z.

Definition in_range (lo hi b : Z) : bool := ((lo <=? b) && (b <=? hi))%Z.

Definition cont (b : Z) : bool := in_range 128 191 b.

(** [bytes.decode('utf-8', errors='strict')] as a partial function: shortest
    forms only, no surrogates, nothing above U+10FFFF. *)
Fixpoint utf8 (l : bytes) : option text :=
  match l with
  | [] => Some []
  | b1 :: r1 =>
      if in_range 0 127 b1 then option_map (cons b1) (utf8 r1)
      else
        match r1 with
        | [] => None
        | b2 :: r2 =>
            if in_range 194 223 b1 then
              if cont b2
              then option_map (cons ((b1 - 192) * 64 + (b2 - 128))%Z) (utf8 r2)
              else None
            else
              match r2 with
              | [] => None
              | b3 :: r3 =>
                  if in_range 224 239 b1 then
                    if (if (b1 =? 224)%Z then in_range 160 191 b2
                        else if (b1 =? 237)%Z then in_range 128 159 b2
                        else cont b2) && cont b3
                    then option_map
                           (cons ((b1 - 224) * 4096 + (b2 - 128) * 64
                                  + (b3 - 128))%Z)
                           (utf8 r3)
                    else None
                  else
                    match r3 with
                    | [] => None
                    | b4 :: r4 =>
                        if in_range 240 244 b1 then
                          if (if (b1 =? 240)%Z then in_range 144 191 b2
                              else if (b1 =? 244)%Z then in_range 128 143 b2
                              else cont b2) && cont b3 && cont b4
                          then option_map
                                 (cons ((b1 - 240) * 262144 + (b2 - 128) * 4096
                                        + (b3 - 128) * 64 + (b4 - 128))%Z)
                                 (utf8 r4)
                          else None
                        else None
                    end
              end
        end
  end.

Definition decode_utf8 (l : bytes) : result text :=
  match utf8 l with
  | Some t => Ok t
  | None => Raise UnicodeDecodeError
  end.

(** ** Sanitising decoded text *)

(** [char in '\n\t\r']. *)
Definition is_nl_tab_cr (c : Z) : bool :=
  ((c =? 10) || (c =? 9) || (c =? 13))%Z.

(** The loop that builds [clean_text]: keep characters with [ord(char) >= 32]
    and the three exempt ones, [break] at any other character below 32. *)
Fixpoint clean_control (t : text) : text :=
  match t with
  | [] => []
  | c :: r =>
      if (32 <=? c)%Z || is_nl_tab_cr c then c :: clean_control r
      else if (c <? 32)%Z then []
      else clean_control r
  end.

(** The characters removed by [str.strip()] (those with [str.isspace()]). *)
Definition is_space (c : Z) : bool :=
  in_range 9 13 c || in_range 28 32 c || (c =? 133)%Z || (c =? 160)%Z
  || (c =? 5760)%Z || in_range 8192 8202 c || (c =? 8232)%Z || (c =? 8233)%Z
  || (c =? 8239)%Z || (c =? 8287)%Z || (c =? 12288)%Z.

Fixpoint lstrip (t : text) : text :=
  match t with
  | [] => []
  | c :: r => if is_space c then lstrip r else t
  end.

Definition rstrip (t : text) : text := rev (lstrip (rev t)).

(** [t.strip()]. *)
Definition strip (t : text) : text := rstrip (lstrip t).

(** [clean_text] after [clean_text = clean_text.strip()]. *)
Definition sanitize (t : text) : text := strip (clean_control t).

(** [t.startswith(p)] on code points. *)
Definition text_startswith (t p : text) : bool := is_prefix p t.

(** ** The blob decoder *)

Definition NSString : bytes := [78; 83; 83; 116; 114; 105; 110; 103]%Z.

(** The [patterns] list; every [length_offset] is [0]. *)
Definition patterns : list (bytes * nat) :=
  [ ([103; 1; 148; 132; 1; 43]%Z, 0%nat);
    ([132; 1; 43]%Z, 0%nat);
    ([1; 148; 132; 1; 43]%Z, 0%nat);
    ([1; 149; 132; 1; 43]%Z, 0%nat) ].

(** The branch on [length_byte]: [Some (text_length, text_start)], or [None]
    where the code says [continue]. *)
Definition length_field (blob : bytes) (length_pos : nat) (length_byte : Z)
  : result (option (Z * nat)) :=
  if (128 <=? length_byte)%Z then
    let num_length_bytes := Z.land length_byte 127 in
    if (num_length_bytes =? 1)%Z && (length_pos + 2 <? List.length blob)%nat
    then
      letr text_length := getitem blob (length_pos + 1) in
      Ok (Some (text_length, (length_pos + 3)%nat))
    else if (num_length_bytes =? 2)%Z
            && (length_pos + 3 <? List.length blob)%nat
    then
      letr lo := getitem blob (length_pos + 1) in
      letr hi := getitem blob (length_pos + 2) in
      Ok (Some (Z.lor lo (Z.shiftl hi 8), (length_pos + 4)%nat))
    else Ok None
  else Ok (Some (length_byte, (length_pos + 1)%nat)).

(** The guarded extraction of the marker path, from [if 1 <= text_length
    <= 10000 and ...] down to [except UnicodeDecodeError: continue]. *)
Definition extract_text (blob : bytes) (text_length : Z) (text_start : nat)
  : result (option text) :=
  if (1 <=? text_length)%Z && (text_length <=? 10000)%Z
     && (text_start + Z.to_nat text_length <=? List.length blob)%nat
  then
    except_unicode
      (letr t :=
         decode_utf8
           (slice blob text_start (text_start + Z.to_nat text_length)) in
       let clean_text := sanitize t in
       if (0 <? List.length clean_text)%nat then Ok (Some clean_text)
       else Ok None)
      (Ok None)
  else Ok None.

(** The body of [for pattern, length_offset in patterns]. *)
Definition try_pattern (blob : bytes) (nsstring_pos : nat)
  (pl : bytes * nat) : result (option text) :=
  let '(pattern, length_offset) := pl in
  match find blob pattern nsstring_pos with
  | None => Ok None
  | Some pattern_pos =>
      let length_pos := (pattern_pos + List.length pattern + length_offset)%nat in
      if (length_pos <? List.length blob)%nat then
        letr length_byte := getitem blob length_pos in
        letr lf := length_field blob length_pos length_byte in
        match lf with
        | None => Ok None
        | Some (text_length, text_start) =>
            extract_text blob text_length text_start
        end
      else Ok None
  end.

Section Decoder.

(** [str.isalnum] on one character, a function of the Unicode character
    database. *)
Variable isalnum : Z -> bool.

(** The body of the fallback loop [for i in range(...)]. *)
Definition scan_at (blob : bytes) (i : nat) : result (option text) :=
  letr potential_length := getitem blob i in
  if (2 <=? potential_length)%Z && (potential_length <=? 200)%Z then
    let text_start := (i + 1)%nat in
    if (text_start + Z.to_nat potential_length <=? List.length blob)%nat
    then
      except_unicode
        (letr t :=
           decode_utf8
             (slice blob text_start
                    (text_start + Z.to_nat potential_length)) in
         if existsb isalnum t
            && negb (text_startswith t [78; 83]%Z)
            && negb (text_startswith t [95; 95]%Z)
         then
           let clean_text := sanitize t in
           if (2 <=? List.length clean_text)%nat then Ok (Some clean_text)
           else Ok None
         else Ok None)
        (Ok None)
    else Ok None
  else Ok None.

(** [range(search_start, min(search_start + 100, len(blob) - 10))]; the
    subtraction is truncated at zero, which leaves the range empty exactly
    when Python's bound is not above [search_start]. *)
Definition scan_range (blob : bytes) (search_start : nat) : list nat :=
  let stop := Nat.min (search_start + 100) (List.length blob - 10) in
  seq search_start (stop - search_start).

(** The body of the [try] block of [decode_attributed_body]. *)
Definition decode_body (blob : bytes) : result (option text) :=
  match find blob NSString 0 with
  | None => Ok None
  | Some nsstring_pos =>
      letr r := for_first (try_pattern blob nsstring_pos) patterns in
      match r with
      | Some t => Ok (Some t)
      | None =>
          for_first (scan_at blob) (scan_range blob (nsstring_pos + 8))
      end
  end.

(** [decode_attributed_body(blob)]; [decode_attributed_body_correct] of
    [extract_messages_final_correct.py] has the same text.  A [None]
    argument is [None]; the handler [except Exception: pass] turns a raised
    exception into the final [return None]. *)
Definition decode_attributed_body (blob : option bytes) : option text :=
  match blob with
  | None => None
  | Some [] => None
  | Some b =>
      match decode_body b with
      | Ok r => r
      | Raise _ => None
      end
  end.

End Decoder.

(** [str.isalnum] restricted to ASCII, an instance used to run the decoder
    on ASCII blobs. *)
Definition ascii_isalnum (c : Z) : bool :=
  in_range 48 57 c || in_range 65 90 c || in_range 97 122 c.

(** ** Messages, contacts and datasets *)

Module Message.
Record t := mk {
  id : Z;
  contactId : nat;
  content : text;
  date : string;
  isFromMe : bool
}.
End Message.

Module Contact.
(** [isGroupChat] holds the truth value of the Python expression stored
    under that key; [displayName] and [participants] are [None] when the
    key is absent. *)
Record t := mk {
  id : nat;
  name : string;
  phone : string;
  messageCount : nat;
  isGroupChat : bool;
  displayName : option string;
  participants : option (list string)
}.

Definition with_messageCount (c : t) (n : nat) : t :=
  mk (id c) (name c) (phone c) n (isGroupChat c) (displayName c)
     (participants c).

Definition with_name (c : t) (s : string) : t :=
  mk (id c) s (phone c) (messageCount c) (isGroupChat c) (displayName c)
     (participants c).
End Contact.

Record Statistics := mkStatistics {
  totalMessages : nat;
  messagesSent : nat;
  messagesReceived : nat;
  uniqueContacts : nat;
  avgMessageLength : Q;
  dateRange : string * string;
  hourlyDistribution : list nat;
  (** set by [cmd_full_export] after the attachments are copied; absent from
      what [calculate_statistics] returns *)
  totalImages : option nat
}.

Record Dataset := mkDataset {
  contacts : list Contact.t;
  messages : list Message.t;
  images : list string;
  statistics : Statistics
}.

(** One row of the query of [extract_messages]; a [NULL] column is [None]
    (for [message_date], the empty string). *)
Record Row := mkRow {
  message_id : Z;
  message_text : option text;
  attributed_body : option bytes;
  is_from_me : bool;
  message_date : string;
  contact_identifier : option string;
  chat_identifier : option string;
  chat_display_name : option string
}.

(** ** Statistics *)

(** [hourly_dist[hour] += 1]; an index outside the list raises inside the
    [try] of the loop and leaves the list as it was. *)
Fixpoint incr_at (hour : nat) (l : list nat) : list nat :=
  match l, hour with
  | [], _ => []
  | x :: r, O => S x :: r
  | x :: r, S h => x :: incr_at h r
  end.

(** [min(dates)] and [max(dates)] for a non-empty list, by code points. *)
Fixpoint min_str (d : string) (l : list string) : string :=
  match l with
  | [] => d
  | x :: r => min_str (if String.ltb x d then x else d) r
  end.

Fixpoint max_str (d : string) (l : list string) : string :=
  match l with
  | [] => d
  | x :: r => max_str (if String.ltb d x then x else d) r
  end.

Section Statistics.

(** [datetime.fromisoformat(s).hour], [None] when the call raises. *)
Variable iso_hour : string -> option nat.

Definition hourly (ms : list Message.t) : list nat :=
  fold_left
    (fun dist m =>
       match iso_hour (Message.date m) with
       | Some hour => incr_at hour dist
       | None => dist
       end)
    ms (repeat 0%nat 24).

(** [calculate_statistics(messages, contacts)].  The average is the exact
    quotient; Python rounds it to a float. *)
Definition calculate_statistics (ms : list Message.t) (cs : list Contact.t)
  : Statistics :=
  let total_messages := List.length ms in
  let messages_sent := List.length (List.filter Message.isFromMe ms) in
  let dates :=
    List.filter truthy (List.map Message.date ms) in
  let lengths :=
    List.map (fun m => List.length (Message.content m))
      (List.filter (fun m => (0 <? List.length (Message.content m))%nat) ms) in
  mkStatistics
    total_messages
    messages_sent
    (total_messages - messages_sent)
    (List.length cs)
    (match lengths with
     | [] => 0%Q
     | _ => Z.of_nat (list_sum lengths) # Pos.of_nat (List.length lengths)
     end)
    (match dates with
     | [] => ("", "")
     | d :: r => (min_str d r, max_str d r)
     end)
    (hourly ms)
    None.

End Statistics.

(** ** Assembly: [extract_messages] *)

(** [str(o)] for a value that is [None] or a [str]. *)
Definition py_str (o : option string) : string :=
  match o with
  | Some s => s
  | None => "None"
  end.

(** [str(z)] for an integer. *)
Definition str_of_Z (z : Z) : string :=
  NilEmpty.string_of_int (Z.to_int z).

(** [resolve_contact_name] as [extract_messages] calls it, with a
    [contact_identifier] that may be [None]: [None] is no key of the
    dictionary, and its digits are those of [str(None)]. *)
Definition resolve_contact_name_opt (phone : option string)
  (mappings : Mappings) : option string :=
  match phone with
  | Some p => resolve_contact_name p mappings
  | None => probe_variants (phone_to_name mappings) (variants (py_str None))
  end.

(** [s.replace(c, '')] for a one-character [c]. *)
Fixpoint remove_char (c : ascii) (s : string) : string :=
  match s with
  | EmptyString => EmptyString
  | String x r =>
      if Ascii.eqb x c then remove_char c r else String x (remove_char c r)
  end.

(** [str.isdigit] on code points below 256: the decimal digits and the
    superscripts one, two and three. *)
Definition isdigit_char (c : ascii) : bool :=
  let n := nat_of_ascii c in
  is_digit c || (n =? 178)%nat || (n =? 179)%nat || (n =? 185)%nat.

Fixpoint all_chars (p : ascii -> bool) (s : string) : bool :=
  match s with
  | EmptyString => true
  | String c r => p c && all_chars p r
  end.

Definition isdigit (s : string) : bool := truthy s && all_chars isdigit_char s.

(** The test that selects [clean_phone_number] for the contact's name. *)
Definition looks_like_phone (s : string) : bool :=
  startswith s "+"
  || isdigit (remove_char " " (remove_char ")" (remove_char "("
              (remove_char "-" s)))).

(** Truth value of [chat_identifier and chat_identifier.startswith('chat')]. *)
Definition is_group (chat_identifier : option string) : bool :=
  match chat_identifier with
  | Some c => truthy c && startswith c "chat"
  | None => false
  end.

(** The chain that chooses [contact_key]. *)
Definition contact_key_of (r : Row) : string :=
  if is_group (chat_identifier r) then py_str (chat_identifier r)
  else if truthy_opt (contact_identifier r) then py_str (contact_identifier r)
  else if truthy_opt (chat_identifier r) then py_str (chat_identifier r)
  else "unknown_" +:+ str_of_Z (message_id r).

(** The value of [a or b or ''] for [phone]. *)
Definition phone_of (r : Row) : string :=
  match py_or (py_or (contact_identifier r) (chat_identifier r)) (Some "") with
  | Some s => s
  | None => ""
  end.

(** [contact_data] for the first sighting of a key. *)
Definition new_contact (mappings : Mappings) (r : Row) (counter : nat)
  : Contact.t :=
  let key := contact_key_of r in
  if is_group (chat_identifier r) then
    let '(mapped_display_name, parts) :=
      get_group_chat_info (py_str (chat_identifier r)) mappings in
    let '(name, display) :=
      if truthy_opt (chat_display_name r)
      then (py_str (chat_display_name r), None)
      else if truthy_opt mapped_display_name
           then (py_str (chat_identifier r), mapped_display_name)
           else (key, None) in
    Contact.mk counter name (phone_of r) 0 true display
      (match parts with [] => None | _ => Some parts end)
  else
    let resolved_name := resolve_contact_name_opt (contact_identifier r) mappings in
    let name :=
      if truthy_opt resolved_name then py_str resolved_name
      else if truthy_opt (chat_display_name r)
           then py_str (chat_display_name r)
           else if truthy_opt (contact_identifier r) then
                  if looks_like_phone (py_str (contact_identifier r))
                  then clean_phone_number (py_str (contact_identifier r))
                  else py_str (contact_identifier r)
                else key in
    Contact.mk counter name (phone_of r) 0 false None None.

(** The [contacts] dictionary, in insertion order. *)
Definition contacts_dict := list (string * Contact.t).

Fixpoint dict_get (d : contacts_dict) (k : string) : option Contact.t :=
  match d with
  | [] => None
  | (k', c) :: r => if String.eqb k' k then Some c else dict_get r k
  end.

(** [contacts[k]['messageCount'] += 1]. *)
Fixpoint dict_incr (d : contacts_dict) (k : string) : contacts_dict :=
  match d with
  | [] => []
  | (k', c) :: r =>
      if String.eqb k' k
      then (k', Contact.with_messageCount c (S (Contact.messageCount c))) :: r
      else (k', c) :: dict_incr r k
  end.

Record AsmState := mkAsm {
  asm_contacts : contacts_dict;
  asm_messages : list Message.t;
  contact_id_counter : nat
}.

Section Assembly.

Variable isalnum : Z -> bool.
Variable iso_hour : string -> option nat.
Variable mappings : Mappings.

(** [message_content] of a row, [None] when it is falsy. *)
Definition message_content (r : Row) : option text :=
  let from_text :=
    match message_text r with
    | Some (c :: t) => Some (c :: t)
    | _ => None
    end in
  match from_text with
  | Some t => Some t
  | None =>
      match attributed_body r with
      | Some (b :: bs) =>
          match decode_attributed_body isalnum (Some (b :: bs)) with
          | Some (c :: t) => Some (c :: t)
          | _ => None
          end
      | _ => None
      end
  end.

(** The body of [for row in results]. *)
Definition process_row (st : AsmState) (r : Row) : AsmState :=
  match message_content r with
  | None => st
  | Some content =>
      let key := contact_key_of r in
      let '(cs, counter) :=
        match dict_get (asm_contacts st) key with
        | Some _ => (asm_contacts st, contact_id_counter st)
        | None =>
            ((asm_contacts st
                ++ [(key, new_contact mappings r (contact_id_counter st))])%list,
             S (contact_id_counter st))
        end in
      let cs := dict_incr cs key in
      let cid :=
        match dict_get cs key with
        | Some c => Contact.id c
        | None => 0%nat
        end in
      mkAsm cs
        (asm_messages st
           ++ [Message.mk (message_id r) cid content (message_date r)
                          (is_from_me r)])%list
        counter
  end.

Definition initial_state : AsmState := mkAsm [] [] 1.

Definition process_rows (rows : list Row) : AsmState :=
  fold_left process_row rows initial_state.

(** [contacts_list.sort(key=lambda x: x['messageCount'], reverse=True)]:
    descending and stable. *)
Fixpoint insert_desc (c : Contact.t) (l : list Contact.t) : list Contact.t :=
  match l with
  | [] => [c]
  | y :: r =>
      if (Contact.messageCount y <=? Contact.messageCount c)%nat
      then c :: y :: r
      else y :: insert_desc c r
  end.

Fixpoint sort_desc (l : list Contact.t) : list Contact.t :=
  match l with
  | [] => []
  | c :: r => insert_desc c (sort_desc r)
  end.

(** [extract_messages(mappings, ...)] on the rows returned by the query. *)
Definition extract_messages (rows : list Row) : Dataset :=
  let st := process_rows rows in
  let contacts_list := sort_desc (List.map snd (asm_contacts st)) in
  mkDataset contacts_list (asm_messages st) []
    (calculate_statistics iso_hour (asm_messages st) contacts_list).

End Assembly.

(** ** Incremental update: [cmd_update] *)

(** [c in s] for a one-character [c]. *)
Fixpoint contains_char (c : ascii) (s : string) : bool :=
  match s with
  | EmptyString => false
  | String x r => Ascii.eqb x c || contains_char c r
  end.

Fixpoint mem_string (x : string) (l : list string) : bool :=
  match l with
  | [] => false
  | y :: r => String.eqb x y || mem_string x r
  end.

(** The first loop of [resolve_unresolved_contacts]: the phones of the
    contacts whose name still looks like an identifier, without repeats. *)
Definition unresolved_phones (cs : list Contact.t) : list string :=
  fold_left
    (fun unresolved c =>
       if Contact.isGroupChat c then unresolved
       else if startswith (Contact.name c) "+"
               || contains_char "@" (Contact.name c)
               || startswith (Contact.name c) "chat"
            then if truthy (Contact.phone c)
                    && negb (mem_string (Contact.phone c) unresolved)
                 then (unresolved ++ [Contact.phone c])%list
                 else unresolved
            else unresolved)
    cs [].

(** [resolved.items()], in insertion order. *)
Definition resolved_dict := list (string * string).

Fixpoint resolved_get (d : resolved_dict) (k : string) : option string :=
  match d with
  | [] => None
  | (k', v) :: r => if String.eqb k' k then Some v else resolved_get r k
  end.

(** The inner loop over [resolved.items()] that compares digits. *)
Fixpoint resolved_by_digits (d : resolved_dict) (cleaned : string)
  : option string :=
  match d with
  | [] => None
  | (orig_phone, v) :: r =>
      if String.eqb (strip_non_digits orig_phone) cleaned then Some v
      else resolved_by_digits r cleaned
  end.

Section Update.

Variable iso_hour : string -> option nat.

(** The outcome of one [osascript] call of
    [resolve_contacts_via_applescript]: the stripped output when the call
    succeeds, [None] otherwise. *)
Variable oracle : string -> option string.

(** [resolve_contacts_via_applescript(phones_to_resolve, limit)]. *)
Definition resolve_contacts_via_applescript (phones : list string)
  (limit : nat) : resolved_dict :=
  omap (fun p =>
          match oracle p with
          | Some n => if truthy n then Some (p, n) else None
          | None => None
          end)
       (firstn limit phones).

(** The second loop of [resolve_unresolved_contacts]. *)
Definition rename_contact (resolved : resolved_dict) (c : Contact.t)
  : Contact.t :=
  match resolved_get resolved (Contact.phone c) with
  | Some n => Contact.with_name c n
  | None =>
      match resolved_by_digits resolved (strip_non_digits (Contact.phone c)) with
      | Some n => Contact.with_name c n
      | None => c
      end
  end.

(** The effect of [resolve_unresolved_contacts(data, mappings, limit)] on
    [data['contacts']]. *)
Definition resolve_unresolved_contacts (cs : list Contact.t) (limit : nat)
  : list Contact.t :=
  match unresolved_phones cs with
  | [] => cs
  | unresolved =>
      match resolve_contacts_via_applescript unresolved limit with
      | [] => cs
      | resolved => List.map (rename_contact resolved) cs
      end
  end.

(** [new_messages]: the messages of the new data whose id is not in the
    set [existing_ids]. *)
Definition new_messages (existing new_data : Dataset) : list Message.t :=
  let existing_ids : gset Z :=
    list_to_set (List.map Message.id (messages existing)) in
  List.filter (fun m => bool_decide (Message.id m ∉ existing_ids))
              (messages new_data).

(** The contacts of the new data that the loop appends. *)
Definition new_contacts (existing new_data : Dataset) : list Contact.t :=
  let existing_contact_ids : gset nat :=
    list_to_set (List.map Contact.id (contacts existing)) in
  List.filter (fun c => bool_decide (Contact.id c ∉ existing_contact_ids))
              (contacts new_data).

(** The merge of [cmd_update]: the value of [existing] once the function
    returns, given the loaded data and the newly extracted data. *)
Definition cmd_update (existing new_data : Dataset) : Dataset :=
  match messages new_data with
  | [] => existing
  | _ =>
      match new_messages existing new_data with
      | [] => existing
      | added =>
          let ms := (added ++ messages existing)%list in
          let appended := new_contacts existing new_data in
          let cs := (contacts existing ++ appended)%list in
          let cs :=
            if (0 <? List.length appended)%nat
            then resolve_unresolved_contacts cs 50
            else cs in
          mkDataset cs ms (images existing)
                    (calculate_statistics iso_hour ms cs)
      end
  end.

End Update.

(** A parser for the hours of timestamps written [YYYY-MM-DD HH:MM:SS], the
    form the query produces; used to run the model on examples. *)
Definition digit_val (c : ascii) : option nat :=
  if is_digit c then Some (nat_of_ascii c - 48)%nat else None.

Definition simple_iso_hour (s : string) : option nat :=
  if (String.length s =? 19)%nat then
    match String.get 11 s, String.get 12 s with
    | Some a, Some b =>
        match digit_val a, digit_val b with
        | Some x, Some y =>
            if (10 * x + y <? 24)%nat then Some (10 * x + y)%nat else None
        | _, _ => None
        end
    | _, _ => None
    end
  else None.

(** An oracle that knows nobody. *)
Definition no_oracle (_ : string) : option string := None.

(** Step 6 of [cmd_full_export], when attachments were found:
    [data['images'] = images] and
    [data['statistics']['totalImages'] = len(images)]. *)
Definition with_images (data : Dataset) (imgs : list string) : Dataset :=
  let st := statistics data in
  mkDataset (contacts data) (messages data) imgs
    (mkStatistics (totalMessages st) (messagesSent st) (messagesReceived st)
       (uniqueContacts st) (avgMessageLength st) (dateRange st)
       (hourlyDistribution st) (Some (List.length imgs))).

(** ** Learning contact mappings *)

(** The three assignments made for one resolved phone in
    [resolve_unresolved_contacts], [cmd_contacts] and step 4 of
    [cmd_full_export]: the phone itself and, when it has digits, the digits
    and the digits behind "+". *)
Definition learn_phone (p2n : gmap string string) (phone name : string)
  : gmap string string :=
  let p2n := <[ phone := name ]> p2n in
  let cleaned := strip_non_digits phone in
  if truthy cleaned
  then <[ "+" +:+ cleaned := name ]> (<[ cleaned := name ]> p2n)
  else p2n.

(** The loop [for phone, name in resolved.items()] that updates
    [mappings['phone_to_name']]. *)
Definition update_mappings (resolved : resolved_dict)
  (p2n : gmap string string) : gmap string string :=
  fold_left (fun m e => learn_phone m (fst e) (snd e)) resolved p2n.

(** The test of step 4 of [cmd_full_export] on a contact: not a group chat,
    and a name that is not an identifier. *)
Definition has_learnable_name (c : Contact.t) : bool :=
  negb (Contact.isGroupChat c)
  && truthy (Contact.name c)
  && negb (startswith (Contact.name c) "+")
  && negb (startswith (Contact.name c) "chat")
  && negb (contains_char "@" (Contact.name c)).

(** Step 4 of [cmd_full_export]: learn the phone of every such contact whose
    phone is not a key yet. *)
Definition save_new_mappings (cs : list Contact.t)
  (p2n : gmap string string) : gmap string string :=
  fold_left
    (fun m c =>
       if has_learnable_name c then
         if truthy (Contact.phone c)
            && negb (bool_decide (is_Some (m !! Contact.phone c)))
         then learn_phone m (Contact.phone c) (Contact.name c)
         else m
       else m)
    cs p2n.

(** [save_contact_mappings.py], [extract_contacts_from_json]: the two tests
    that make the loop [continue]. *)
Definition json_learnable (c : Contact.t) : bool :=
  negb (negb (truthy (Contact.name c))
        || startswith (Contact.name c) "+"
        || startswith (Contact.name c) "chat"
        || contains_char "@" (Contact.name c))
  && negb (Contact.isGroupChat c || startswith (Contact.phone c) "chat").

(** The body of the loop of [extract_contacts_from_json]. *)
Definition json_step (m : gmap string string) (c : Contact.t)
  : gmap string string :=
  let phone := Contact.phone c in
  let name := Contact.name c in
  if json_learnable c then
    if truthy phone then
      let m := <[ phone := name ]> m in
      let cleaned := SaveContactMappings.clean_phone_number phone in
      if truthy cleaned then
        let m := <[ "+" +:+ cleaned := name ]> m in
        let m := <[ cleaned := name ]> m in
        if (10 <=? String.length cleaned)%nat
        then <[ last10 cleaned := name ]> m
        else m
      else m
    else m
  else m.

(** [extract_contacts_from_json()] on the contacts of the data file. *)
Definition extract_contacts_from_json (cs : list Contact.t)
  : gmap string string :=
  fold_left json_step cs ∅.

(** ** Sample data *)

Definition sample_store : Mappings :=
  mkMappings {[ "5551234567" := "Alice" ]} ∅.

(** Rows as the query returns them: one from Alice, one from an unknown
    number, two in the group thread "chat123". *)
Definition row_alice : Row :=
  mkRow 101 (Some [104; 105]%Z) None false "2024-03-01 09:15:00"
        (Some "+15551234567") (Some "+15551234567") None.

Definition row_other : Row :=
  mkRow 102 (Some [111; 107]%Z) None true "2024-03-02 18:30:00"
        (Some "+15559876543") (Some "+15559876543") None.

Definition row_group1 : Row :=
  mkRow 103 (Some [121; 111]%Z) None false "2024-03-03 07:00:00"
        (Some "+15551234567") (Some "chat123") (Some "Family").

Definition row_group2 : Row :=
  mkRow 104 (Some [104; 101; 121]%Z) None true "2024-03-03 07:05:00"
        None (Some "chat123") None.

(** A later row from the unknown number. *)
Definition row_late : Row :=
  mkRow 105 (Some [111; 107]%Z) None true "2024-03-04 12:00:00"
        (Some "+15559876543") (Some "+15559876543") None.

Definition sample_extract (rows : list Row) : Dataset :=
  extract_messages ascii_isalnum simple_iso_hour sample_store rows.

Definition sample_update (existing new_data : Dataset) : Dataset :=
  cmd_update simple_iso_hour no_oracle existing new_data.

(** ** Definitions used to state the properties *)

(** The keys that [resolve_contact_name] probes, in order: the input itself,
    then the non-empty ones among the digits, the digits behind "+", and,
    with at least ten digits, "+1" with the last ten digits and the last
    ten digits alone. *)
Definition probes (phone : string) : list string :=
  let cleaned := cleaned_digits phone in
  phone
  :: List.filter truthy
       ([cleaned; "+" +:+ cleaned]
        ++ (if (10 <=? String.length cleaned)%nat
            then ["+1" +:+ last10 cleaned; last10 cleaned] else []))%list.

(** The four lookup variants as the specification lists them: the original
    input, the canonical digits, the canonical digits behind "+", and, with
    at least ten digits, the last ten digits. *)
Definition four_variants (phone : string) : list string :=
  let canonical := SaveContactMappings.clean_phone_number phone in
  ([phone; canonical; "+" +:+ canonical]
   ++ (if (10 <=? String.length canonical)%nat
       then [last10 canonical] else []))%list.

(** The first stored name along a list of keys. *)
Fixpoint first_hit (m : gmap string string) (keys : list string)
  : option string :=
  match keys with
  | [] => None
  | k :: r =>
      match m !! k with
      | Some n => Some n
      | None => first_hit m r
      end
  end.

(** A character that the sanitiser keeps: code point at least 32, or one of
    newline, tab and carriage return. *)
Definition kept (c : Z) : Prop :=
  (32 <= c)%Z \/ c = 10%Z \/ c = 9%Z \/ c = 13%Z.

(** [rest] is empty or starts with a control character that is not kept. *)
Definition starts_with_control (rest : text) : Prop :=
  match rest with
  | [] => True
  | c :: _ => (c < 32)%Z /\ c <> 10%Z /\ c <> 9%Z /\ c <> 13%Z
  end.

(** [t] neither starts nor ends with a whitespace character. *)
Definition trimmed (t : text) : Prop :=
  match t with
  | [] => True
  | c :: _ => is_space c = false
  end
  /\ match rev t with
     | [] => True
     | c :: _ => is_space c = false
     end.

(** The order of a contacts list sorted by [messageCount], largest first. *)
Definition by_count_desc (a b : Contact.t) : Prop :=
  (Contact.messageCount b <= Contact.messageCount a)%nat.

(** The number of messages that reference the contact id [cid]. *)
Definition count_refs (cid : nat) (ms : list Message.t) : nat :=
  List.length (List.filter (fun m => (Message.contactId m =? cid)%nat) ms).

(** Every message references exactly one contact of the dataset. *)
Definition references_one_contact (d : Dataset) : Prop :=
  Forall
    (fun m =>
       List.length
         (List.filter (fun c => (Contact.id c =? Message.contactId m)%nat)
                      (contacts d))
       = 1%nat)
    (messages d).

(** Every contact's [messageCount] is the number of messages that reference
    it. *)
Definition counts_match (d : Dataset) : Prop :=
  Forall
    (fun c => Contact.messageCount c = count_refs (Contact.id c) (messages d))
    (contacts d).

(** Contact ids are pairwise distinct and every message references one of
    them. *)
Definition well_referenced (d : Dataset) : Prop :=
  List.NoDup (List.map Contact.id (contacts d))
  /\ Forall
       (fun m => In (Message.contactId m) (List.map Contact.id (contacts d)))
       (messages d).

(** The id and message count of each contact, in list order. *)
Definition id_counts (cs : list Contact.t) : list (nat * nat) :=
  List.map (fun c => (Contact.id c, Contact.messageCount c)) cs.

(** The invariant of the loop of [extract_messages]: contacts are numbered
    1, 2, ... in order of first sighting, the counter is the next number,
    every count is the number of messages appended so far for that contact,
    and every message references a contact created so far. *)
Definition asm_inv (st : AsmState) : Prop :=
  let cs := List.map snd (asm_contacts st) in
  List.map Contact.id cs = seq 1 (List.length cs)
  /\ contact_id_counter st = S (List.length cs)
  /\ Forall
       (fun c => Contact.messageCount c
                 = count_refs (Contact.id c) (asm_messages st))
       cs
  /\ Forall
       (fun m => (1 <= Message.contactId m <= List.length cs)%nat)
       (asm_messages st).

(** The message falls into one of the 24 buckets of the hourly histogram:
    its date parses, to an hour below 24. *)
Definition counted (iso_hour : string -> option nat) (m : Message.t) : bool :=
  match iso_hour (Message.date m) with
  | Some hour => (hour <? 24)%nat
  | None => false
  end.

(** The message [m] is the one [extract_messages] appends for the row [r]:
    same id, date and direction, and the row's content. *)
Definition message_of_row (isalnum : Z -> bool) (r : Row) (m : Message.t)
  : Prop :=
  Message.id m = message_id r
  /\ message_content isalnum r = Some (Message.content m)
  /\ Message.date m = message_date r
  /\ Message.isFromMe m = is_from_me r.

(** The row yields a message. *)
Definition has_content (isalnum : Z -> bool) (r : Row) : bool :=
  match message_content isalnum r with
  | Some _ => true
  | None => false
  end.

(** In the dictionary [d], the key of row [r] is bound to the contact that
    message [m] references. *)
Definition keyed_to (d : contacts_dict) (r : Row) (m : Message.t) : Prop :=
  exists c,
    dict_get d (contact_key_of r) = Some c
    /\ Contact.id c = Message.contactId m.

(** A contact with a non-empty name and at least one message. *)
Definition named_and_used (c : Contact.t) : Prop :=
  truthy (Contact.name c) = true /\ (1 <= Contact.messageCount c)%nat.

(** A second invariant of the loop of [extract_messages]: every contact is
    named and used, and the counts add up to the number of messages. *)
Definition asm_totals (st : AsmState) : Prop :=
  Forall named_and_used (List.map snd (asm_contacts st))
  /\ list_sum (List.map Contact.messageCount (List.map snd (asm_contacts st)))
     = List.length (asm_messages st).

(** The length descriptor the decoder understands for a text of [n] bytes:
    one byte below 128; or 0x81, one length byte and a separator; or 0x82,
    two length bytes (low byte first) and a separator. *)
Definition length_descriptor (n sep : Z) : bytes :=
  if (n <? 128)%Z then [n]
  else if (n <? 256)%Z then [129; n; sep]%Z
  else [130; n mod 256; n / 256; sep]%Z.

(** A blob laid out as the decoder expects: anything, the anchor, the bytes
    that complete the first format marker (which starts at the last letter
    of the anchor), the length descriptor, the text bytes, anything. *)
Definition framed_blob (pre body suffix : bytes) (sep : Z) : bytes :=
  (pre ++ NSString ++ [1; 148; 132; 1; 43]%Z
   ++ length_descriptor (Z.of_nat (List.length body)) sep
   ++ body ++ suffix)%list.

(** The length descriptor at [length_pos], as a text length and a text
    start: a byte below 128 is the length, and the text starts at the next
    byte; a byte with the high bit set and low seven bits 1 is followed by
    the length byte and a separator byte; with low seven bits 2 it is
    followed by two length bytes, low byte first, and a separator byte.
    Nothing when a byte is missing or the count is another one. *)
Definition descriptor (blob : bytes) (length_pos : nat) : option (Z * nat) :=
  match nth_error blob length_pos with
  | None => None
  | Some length_byte =>
      if (length_byte <? 128)%Z then Some (length_byte, (length_pos + 1)%nat)
      else if (Z.land length_byte 127 =? 1)%Z then
        match nth_error blob (length_pos + 1),
              nth_error blob (length_pos + 2) with
        | Some n, Some _ => Some (n, (length_pos + 3)%nat)
        | _, _ => None
        end
      else if (Z.land length_byte 127 =? 2)%Z then
        match nth_error blob (length_pos + 1),
              nth_error blob (length_pos + 2),
              nth_error blob (length_pos + 3) with
        | Some lo, Some hi, Some _ =>
            Some (Z.lor lo (Z.shiftl hi 8), (length_pos + 4)%nat)
        | _, _, _ => None
        end
      else None
  end.

(** The candidate text of a format marker: the marker is found from the
    anchor on, its descriptor gives a length between 1 and 10000 and a range
    inside the blob, and the bytes of that range are strict UTF-8. *)
Definition marker_candidate (blob : bytes) (nsstring_pos : nat)
  (p : bytes * nat) : option text :=
  match find blob (fst p) nsstring_pos with
  | None => None
  | Some pattern_pos =>
      match descriptor blob (pattern_pos + List.length (fst p) + snd p) with
      | None => None
      | Some (n, start) =>
          if (1 <=? n)%Z && (n <=? 10000)%Z
             && (start + Z.to_nat n <=? List.length blob)%nat
          then utf8 (slice blob start (start + Z.to_nat n))
          else None
      end
  end.

(** The candidate text of the heuristic scan at offset [i]: the byte there
    is a length between 2 and 200, the bytes after it are inside the blob
    and strict UTF-8, and the text has an alphanumeric character and starts
    with neither "NS" nor "__". *)
Definition scan_candidate (isalnum : Z -> bool) (blob : bytes) (i : nat)
  : option text :=
  match nth_error blob i with
  | None => None
  | Some n =>
      if (2 <=? n)%Z && (n <=? 200)%Z
         && (i + 1 + Z.to_nat n <=? List.length blob)%nat
      then
        match utf8 (slice blob (i + 1) (i + 1 + Z.to_nat n)) with
        | Some c =>
            if existsb isalnum c
               && negb (text_startswith c [78; 83]%Z)
               && negb (text_startswith c [95; 95]%Z)
            then Some c else None
        | None => None
        end
      else None
  end.

(** What a candidate yields: its sanitised form when that has at least
    [min_length] characters, nothing otherwise. *)
Definition emitted (min_length : nat) (candidate : option text)
  : option text :=
  match candidate with
  | Some c =>
      if (min_length <=? List.length (sanitize c))%nat
      then Some (sanitize c) else None
  | None => None
  end.

(** The attempts of the decoder, in the order in which it makes them: the
    format markers, then the offsets of the heuristic scan. *)
Definition attempts (isalnum : Z -> bool) (blob : bytes) (nsstring_pos : nat)
  : list (option text) :=
  (List.map (fun p => emitted 1 (marker_candidate blob nsstring_pos p))
            patterns
   ++ List.map (fun i => emitted 2 (scan_candidate isalnum blob i))
               (scan_range blob (nsstring_pos + 8)))%list.

(** The first attempt that yields a text. *)
Fixpoint first_some {A : Type} (l : list (option A)) : option A :=
  match l with
  | [] => None
  | Some a :: _ => Some a
  | None :: r => first_some r
  end.

(** * Theorems *)

(** ** Phone normalisation *)

Lemma strip_non_digits_filter (s : string) :
  list_ascii_of_string (strip_non_digits s)
  = List.filter is_digit (list_ascii_of_string s).
Proof.
  induction s as [|c r IH]; simpl; [reflexivity|].
  destruct (is_digit c); simpl; rewrite IH; reflexivity.
Qed.

Lemma strip_non_digits_all_digits (s : string) :
  all_chars is_digit (strip_non_digits s) = true.
Proof.
  induction s as [|c r IH]; simpl; [reflexivity|].
  destruct (is_digit c) eqn:E; simpl; [rewrite E|]; exact IH.
Qed.

Lemma truthy_false_empty (s : string) : truthy s = false -> s = "".
Proof. destruct s; [reflexivity|discriminate]. Qed.

Lemma truthy_length (s : string) : truthy s = (0 <? String.length s)%nat.
Proof. destruct s; reflexivity. Qed.

Lemma scm_clean_phone_number_digits (phone : string) :
  SaveContactMappings.clean_phone_number phone = cleaned_digits phone.
Proof.
  unfold SaveContactMappings.clean_phone_number, cleaned_digits.
  destruct phone; reflexivity.
Qed.

(** C4, canonical-digit normaliser of [save_contact_mappings.py] (the same
    computation is inlined in [resolve_contact_name]): the digits of the
    input are kept in order and everything else is dropped; ten digits get
    the prefix "1"; eleven digits starting with "1", and any other count,
    are returned as they are; no digit gives the empty string.  The
    normaliser of [imessage_export.py] returns that canonical string behind
    a "+" when the input has a digit, and the input itself when it has
    none. *)
Theorem clean_phone_number_spec (phone : string) :
  let d := strip_non_digits phone in
  list_ascii_of_string d = List.filter is_digit (list_ascii_of_string phone)
  /\ (String.length d = 10%nat ->
      SaveContactMappings.clean_phone_number phone = "1" +:+ d)
  /\ (String.length d = 11%nat -> startswith d "1" = true ->
      SaveContactMappings.clean_phone_number phone = d)
  /\ (d = "" -> SaveContactMappings.clean_phone_number phone = "")
  /\ (String.length d <> 10%nat ->
      SaveContactMappings.clean_phone_number phone = d)
  /\ (d <> "" ->
      clean_phone_number phone
      = "+" +:+ SaveContactMappings.clean_phone_number phone)
  /\ (d = "" -> clean_phone_number phone = phone).
Proof.
  intros d.
  assert (Hscm : SaveContactMappings.clean_phone_number phone
                 = if (String.length d =? 10)%nat then "1" +:+ d else d)
    by apply scm_clean_phone_number_digits.
  split; [apply strip_non_digits_filter|].
  split.
  { intros H. rewrite Hscm, H. reflexivity. }
  split.
  { intros H _. rewrite Hscm, H. reflexivity. }
  split.
  { intros H. rewrite Hscm, H. reflexivity. }
  split.
  { intros H. rewrite Hscm.
    destruct (Nat.eqb_spec (String.length d) 10); [contradiction|reflexivity]. }
  split.
  - intros Hd. rewrite Hscm. unfold clean_phone_number.
    destruct phone as [|c r]; [exfalso; apply Hd; reflexivity|].
    cbn [truthy negb]. fold d.
    destruct (Nat.eqb_spec (String.length d) 10) as [E|E].
    + reflexivity.
    + assert (Hsame : (if (String.length d =? 11)%nat && startswith d "1"
                       then d else d) = d)
        by (destruct ((String.length d =? 11)%nat && startswith d "1");
            reflexivity).
      rewrite Hsame. destruct d; [exfalso; apply Hd; reflexivity|reflexivity].
  - intros Hd. unfold clean_phone_number.
    destruct phone as [|c r]; [reflexivity|].
    cbn [truthy negb]. fold d. rewrite Hd. reflexivity.
Qed.

Lemma clean_phone_number_spec_witness :
  SaveContactMappings.clean_phone_number "(555) 123-4567" = "15551234567"
  /\ clean_phone_number "(555) 123-4567" = "+15551234567".
Proof.
  pose proof (clean_phone_number_spec "(555) 123-4567") as H.
  cbv zeta in H.
  destruct H as (_ & H10 & _ & _ & _ & Hplus & _).
  split.
  - rewrite H10; reflexivity.
  - rewrite Hplus; [reflexivity|discriminate].
Defined.

(** C4 as stated fails for [clean_phone_number] of [imessage_export.py]:
    with ten digits the result is not "1" followed by the digits, and an
    input without digits does not give the empty string. *)
Lemma clean_phone_number_not_canonical :
  String.length (strip_non_digits "555-123-4567") = 10%nat
  /\ clean_phone_number "555-123-4567"
     <> "1" +:+ strip_non_digits "555-123-4567"
  /\ strip_non_digits "abc" = ""
  /\ clean_phone_number "abc" <> "".
Proof. repeat split; discriminate. Qed.

(** ** Contact-name resolution *)

Lemma probe_variants_first_hit (m : gmap string string)
  (vs : list (option string)) :
  probe_variants m vs
  = first_hit m (List.filter truthy (omap (fun v => v) vs)).
Proof.
  induction vs as [|v r IH]; [reflexivity|].
  destruct v as [k|]; simpl; [|exact IH].
  destruct (truthy k); simpl; [|exact IH].
  destruct (m !! k); [reflexivity|exact IH].
Qed.

(** C5, as the code has it: the result of [resolve_contact_name] is the name
    stored under the first key present among the input itself, the digits,
    the digits behind "+", "+1" followed by the last ten digits, and the
    last ten digits (the last two only with at least ten digits, and an
    empty key is never probed after the first); it is [None] when none is
    present.  With the store [{"5551234567": "Alice"}] the input
    "+15551234567" resolves to "Alice". *)
Theorem resolve_contact_name_first_hit :
  (forall (phone : string) (mappings : Mappings),
      resolve_contact_name phone mappings
      = first_hit (phone_to_name mappings) (probes phone))
  /\ resolve_contact_name "+15551234567"
       (mkMappings {[ "5551234567" := "Alice" ]} ∅)
     = Some "Alice".
Proof.
  split; [|vm_compute; reflexivity].
  intros phone mappings.
  unfold resolve_contact_name, probes. cbn [first_hit].
  destruct (phone_to_name mappings !! phone); [reflexivity|].
  rewrite probe_variants_first_hit. unfold variants.
  destruct (10 <=? String.length (cleaned_digits phone))%nat; reflexivity.
Qed.

(** C5 as stated fails: none of the four listed variants of
    "4415551234567" is a key of the store, yet the name is resolved, through
    the key "+1" followed by the last ten digits. *)
Lemma resolve_contact_name_fifth_probe :
  let store := mkMappings {[ "+15551234567" := "Bob" ]} ∅ in
  Forall (fun v => phone_to_name store !! v = None)
         (four_variants "4415551234567")
  /\ resolve_contact_name "4415551234567" store = Some "Bob".
Proof.
  split; [|vm_compute; reflexivity].
  repeat constructor.
Qed.

(** ** Group display names *)

Lemma save_contact_mappings_participant_name (p2n : gmap string string)
  (participant : string) :
  SaveContactMappingsNames.participant_name p2n participant
  = participant_name p2n participant.
Proof.
  unfold SaveContactMappingsNames.participant_name, participant_name.
  rewrite scm_clean_phone_number_digits. reflexivity.
Qed.

Lemma resolved_names_truthy (p2n : gmap string string) (ps : list string) :
  resolved_names p2n ps
  = List.filter truthy (omap (participant_name p2n) ps).
Proof.
  induction ps as [|p r IH]; [reflexivity|]. simpl.
  destruct (participant_name p2n p) as [n|]; simpl; [|exact IH].
  destruct (truthy n); rewrite IH; reflexivity.
Qed.

(** C10: for an entry without explicit display name, let [names] be the
    names its participants resolve to, in order.  With one to four names the
    synthesised display name is their join with ", "; with more than four it
    is the join of the first four followed by " +N more", [N] being the
    number of names minus four; with none the entry is left as it was.  An
    entry with an explicit display name is left as it was, and both
    [imessage_export.py] and [save_contact_mappings.py] resolve a participant
    to the same name. *)
Theorem resolve_participant_names_spec
  (gc : gmap string ChatInfo) (p2n : gmap string string)
  (chat_id : string) (info : ChatInfo) :
  gc !! chat_id = Some info ->
  let names := resolved_names p2n (participants info) in
  let info' := resolve_chat_info p2n info in
  resolve_participant_names gc p2n !! chat_id = Some info'
  /\ names = List.filter truthy (omap (participant_name p2n) (participants info))
  /\ (forall p, SaveContactMappingsNames.participant_name p2n p
                = participant_name p2n p)
  /\ (display_name info <> "" -> info' = info)
  /\ (display_name info = "" -> names = [] -> info' = info)
  /\ (display_name info = "" -> (1 <= List.length names <= 4)%nat ->
      resolved_display_name info' = Some (join ", " names))
  /\ (display_name info = "" -> (4 < List.length names)%nat ->
      resolved_display_name info'
      = Some (join ", " (firstn 4 names) +:+ " +"
              +:+ str_of_nat (List.length names - 4) +:+ " more")).
Proof.
  intros Hget names info'.
  split.
  { unfold resolve_participant_names. rewrite lookup_fmap, Hget. reflexivity. }
  split; [apply resolved_names_truthy|].
  split; [intros p; apply save_contact_mappings_participant_name|].
  subst info'. unfold resolve_chat_info. fold names.
  split.
  { intros Hd. destruct (display_name info); [congruence|reflexivity]. }
  split.
  { intros Hd Hn. rewrite Hd, Hn. reflexivity. }
  split.
  - intros Hd [Hlo Hhi]. rewrite Hd. cbn [truthy].
    destruct names as [|n0 ns] eqn:En; [simpl in Hlo; lia|].
    cbn [resolved_display_name]. unfold synthesized_name.
    destruct (Nat.ltb_spec 4 (List.length (n0 :: ns))); [lia|].
    rewrite firstn_all2 by lia. reflexivity.
  - intros Hd Hlen. rewrite Hd. cbn [truthy].
    destruct names as [|n0 ns] eqn:En; [simpl in Hlen; lia|].
    cbn [resolved_display_name]. unfold synthesized_name.
    destruct (Nat.ltb_spec 4 (List.length (n0 :: ns))); [reflexivity|lia].
Qed.

Lemma resolve_participant_names_spec_witness :
  let p2n : gmap string string :=
    <[ "+15550000001" := "Ann" ]> (<[ "15550000002" := "Bob" ]>
    (<[ "5550000003" := "Cy" ]> (<[ "+15550000004" := "Di" ]>
    {[ "+15550000005" := "Ed" ]}))) in
  let info :=
    mkChatInfo ""
      [ "+15550000001"; "555-000-0002"; "+15550000003"; "15550000004";
        "nobody@example.com"; "+15550000005" ] None in
  let gc : gmap string ChatInfo := {[ "chat123" := info ]} in
  gc !! "chat123" = Some info
  /\ resolved_display_name (resolve_chat_info p2n info)
     = Some "Ann, Bob, Cy, Di +1 more".
Proof.
  intros p2n info gc.
  assert (Hget : gc !! "chat123" = Some info) by apply lookup_singleton_eq.
  split; [exact Hget|].
  destruct (resolve_participant_names_spec gc p2n "chat123" info Hget)
    as (_ & _ & _ & _ & _ & _ & Hmore).
  rewrite Hmore; [vm_compute; reflexivity|reflexivity|vm_compute; lia].
Defined.

(** ** The blob decoder never raises *)

Lemma getitem_ok (blob : bytes) (i : nat) :
  (i < List.length blob)%nat -> exists b, getitem blob i = Ok b.
Proof.
  intros H. unfold getitem.
  destruct (nth_error blob i) as [b|] eqn:E; [eauto|].
  apply nth_error_None in E. lia.
Qed.

Lemma length_field_ok (blob : bytes) (length_pos : nat) (length_byte : Z) :
  exists r, length_field blob length_pos length_byte = Ok r.
Proof.
  unfold length_field.
  destruct (128 <=? length_byte)%Z; [|eauto].
  destruct ((Z.land length_byte 127 =? 1)%Z
            && (length_pos + 2 <? List.length blob)%nat) eqn:E1.
  { apply andb_prop in E1 as [_ E1]. apply Nat.ltb_lt in E1.
    destruct (getitem_ok blob (length_pos + 1)) as [b Hb]; [lia|].
    rewrite Hb. simpl. eauto. }
  destruct ((Z.land length_byte 127 =? 2)%Z
            && (length_pos + 3 <? List.length blob)%nat) eqn:E2; [|eauto].
  apply andb_prop in E2 as [_ E2]. apply Nat.ltb_lt in E2.
  destruct (getitem_ok blob (length_pos + 1)) as [b1 Hb1]; [lia|].
  destruct (getitem_ok blob (length_pos + 2)) as [b2 Hb2]; [lia|].
  rewrite Hb1, Hb2. simpl. eauto.
Qed.

Lemma except_unicode_decode_ok {A : Type} (l : bytes)
  (k : text -> result A) (h : A) :
  (forall t, exists r, k t = Ok r) ->
  exists r, except_unicode (bind (decode_utf8 l) k) (Ok h) = Ok r.
Proof.
  intros Hk. unfold decode_utf8.
  destruct (utf8 l) as [t|]; simpl; [|eauto].
  destruct (Hk t) as [r Hr]. rewrite Hr. simpl. eauto.
Qed.

Lemma extract_text_ok (blob : bytes) (text_length : Z) (text_start : nat) :
  exists r, extract_text blob text_length text_start = Ok r.
Proof.
  unfold extract_text.
  match goal with |- context [if ?c then _ else _] => destruct c end; [|eauto].
  apply except_unicode_decode_ok. intros t.
  destruct (0 <? List.length (sanitize t))%nat; eauto.
Qed.

Lemma try_pattern_ok (blob : bytes) (nsstring_pos : nat) (pl : bytes * nat) :
  exists r, try_pattern blob nsstring_pos pl = Ok r.
Proof.
  destruct pl as [pattern length_offset]. unfold try_pattern.
  destruct (find blob pattern nsstring_pos) as [pattern_pos|]; [|eauto].
  match goal with |- context [(?a <? ?b)%nat] =>
    destruct (Nat.ltb_spec a b) as [Hlt|]; [|eauto] end.
  destruct (getitem_ok blob _ Hlt) as [lb Hlb]. rewrite Hlb. cbn [bind].
  destruct (length_field_ok blob
              (pattern_pos + List.length pattern + length_offset) lb)
    as [lf Hlf].
  rewrite Hlf. cbn [bind].
  destruct lf as [[tl ts]|]; [apply extract_text_ok|eauto].
Qed.

Lemma for_first_ok {A B : Type} (body : A -> result (option B)) (l : list A) :
  (forall x, In x l -> exists r, body x = Ok r) ->
  exists r, for_first body l = Ok r.
Proof.
  induction l as [|x l IH]; intros H; [simpl; eauto|].
  simpl. destruct (H x) as [r Hr]; [left; reflexivity|].
  rewrite Hr. cbn [bind]. destruct r; [eauto|].
  apply IH. intros y Hy. apply H. right. exact Hy.
Qed.

Section DecoderTotal.

Variable isalnum : Z -> bool.

Lemma scan_at_ok (blob : bytes) (i : nat) :
  (i < List.length blob)%nat -> exists r, scan_at isalnum blob i = Ok r.
Proof.
  intros Hi. unfold scan_at.
  destruct (getitem_ok blob i Hi) as [b Hb]. rewrite Hb. cbn [bind].
  destruct ((2 <=? b)%Z && (b <=? 200)%Z); [|eauto].
  match goal with |- context [(?a <=? ?b)%nat] =>
    destruct (a <=? b)%nat; [|eauto] end.
  apply except_unicode_decode_ok. intros t.
  match goal with |- context [if ?c then _ else _] => destruct c end;
    [|eauto].
  destruct (2 <=? List.length (sanitize t))%nat; eauto.
Qed.

Lemma scan_range_bound (blob : bytes) (start i : nat) :
  In i (scan_range blob start) ->
  (start <= i < List.length blob - 10)%nat.
Proof.
  unfold scan_range. rewrite in_seq. lia.
Qed.

Lemma decode_body_ok (blob : bytes) :
  exists r, decode_body isalnum blob = Ok r.
Proof.
  unfold decode_body.
  destruct (find blob NSString 0) as [pos|]; [|eauto].
  destruct (for_first_ok (try_pattern blob pos) patterns) as [r Hr].
  { intros x _. apply try_pattern_ok. }
  rewrite Hr. cbn [bind]. destruct r; [eauto|].
  apply for_first_ok. intros i Hi.
  apply scan_range_bound in Hi. apply scan_at_ok. lia.
Qed.

End DecoderTotal.

(** C3: the decoder is a total function from an optional byte sequence to an
    optional text; a [None] or empty blob gives [None] at once; and on every
    blob the body of the [try] block completes without raising, so that the
    value returned is the one the body computes. *)
Theorem decode_attributed_body_never_raises (isalnum : Z -> bool) :
  decode_attributed_body isalnum None = None
  /\ decode_attributed_body isalnum (Some []) = None
  /\ forall blob : bytes,
      exists r : option text,
        decode_body isalnum blob = Ok r
        /\ decode_attributed_body isalnum (Some blob) = r.
Proof.
  split; [reflexivity|]. split; [reflexivity|].
  intros blob. destruct (decode_body_ok isalnum blob) as [r Hr].
  exists r. split; [exact Hr|].
  destruct blob as [|b bs].
  - vm_compute in Hr. inversion Hr. reflexivity.
  - unfold decode_attributed_body. rewrite Hr. reflexivity.
Qed.

(** ** The length descriptor *)

Lemma lor_shiftl_little_endian (lo hi : Z) :
  (0 <= lo < 256)%Z -> (0 <= hi)%Z ->
  Z.lor lo (Z.shiftl hi 8) = (lo + 256 * hi)%Z.
Proof.
  intros Hlo Hhi.
  assert (Hdisj : Z.land lo (Z.shiftl hi 8) = 0%Z).
  { apply Z.bits_inj'. intros n Hn.
    rewrite Z.land_spec, Z.bits_0.
    destruct (Z.ltb_spec n 8) as [Hlt|Hge].
    - rewrite Z.shiftl_spec_low by lia. apply andb_false_r.
    - rewrite (Z.bits_above_log2 lo n); [reflexivity|lia|].
      destruct (Z.eq_dec lo 0%Z) as [->|Hnz]; [simpl; lia|].
      assert (Z.log2 lo < 8)%Z; [|lia].
      apply Z.log2_lt_pow2; [lia|]. change (2 ^ 8)%Z with 256%Z. lia. }
  rewrite <- Z.lxor_lor by exact Hdisj.
  rewrite <- Z.add_nocarry_lxor by exact Hdisj.
  rewrite Z.shiftl_mul_pow2 by lia. change (2 ^ 8)%Z with 256%Z. lia.
Qed.

Lemma getitem_nth_error (blob : bytes) (i : nat) (b : Z) :
  nth_error blob i = Some b -> getitem blob i = Ok b.
Proof. intros H. unfold getitem. rewrite H. reflexivity. Qed.

Lemma nth_error_in_bounds (blob : bytes) (i : nat) :
  (i < List.length blob)%nat -> exists b, nth_error blob i = Some b.
Proof.
  intros H. destruct (nth_error blob i) as [b|] eqn:E; [eauto|].
  apply nth_error_None in E. lia.
Qed.

Lemma try_pattern_length_field (blob pattern : bytes)
  (nsstring_pos pattern_pos : nat) (length_byte : Z) :
  find blob pattern nsstring_pos = Some pattern_pos ->
  nth_error blob (pattern_pos + List.length pattern) = Some length_byte ->
  try_pattern blob nsstring_pos (pattern, 0%nat)
  = bind (length_field blob (pattern_pos + List.length pattern) length_byte)
      (fun lf =>
         match lf with
         | None => Ok None
         | Some (text_length, text_start) =>
             extract_text blob text_length text_start
         end).
Proof.
  intros Hfind Hnth. unfold try_pattern. rewrite Hfind, Nat.add_0_r.
  assert (Hlt : (pattern_pos + List.length pattern < List.length blob)%nat).
  { apply nth_error_Some. rewrite Hnth. discriminate. }
  apply Nat.ltb_lt in Hlt. rewrite Hlt.
  rewrite (getitem_nth_error _ _ _ Hnth). reflexivity.
Qed.

(** C2: when the anchor and a format marker are found and a byte follows
    the marker, the attempt made for this marker is determined by that byte.
    Below 128 it is the text length, and the text starts at the next byte.
    With the high bit set and low seven bits equal to 1, the text length is
    the following byte and the text starts one byte after it; with low seven
    bits equal to 2, the text length is the next two bytes read little-endian
    and the text starts one byte after them (both when the blob extends past
    the separator).  With any other low seven bits the marker yields nothing
    and the loop goes on with the next marker. *)
Theorem length_descriptor_cases (blob pattern : bytes)
  (nsstring_pos pattern_pos : nat) (length_byte : Z) :
  find blob NSString 0 = Some nsstring_pos ->
  In (pattern, 0%nat) patterns ->
  find blob pattern nsstring_pos = Some pattern_pos ->
  let length_pos := (pattern_pos + List.length pattern)%nat in
  nth_error blob length_pos = Some length_byte ->
  let attempt := try_pattern blob nsstring_pos (pattern, 0%nat) in
  ((length_byte < 128)%Z ->
   attempt = extract_text blob length_byte (length_pos + 1))
  /\ ((128 <= length_byte)%Z -> Z.land length_byte 127 = 1%Z ->
      (length_pos + 2 < List.length blob)%nat ->
      exists text_length,
        nth_error blob (length_pos + 1) = Some text_length
        /\ attempt = extract_text blob text_length (length_pos + 3))
  /\ ((128 <= length_byte)%Z -> Z.land length_byte 127 = 2%Z ->
      (length_pos + 3 < List.length blob)%nat ->
      exists lo hi,
        nth_error blob (length_pos + 1) = Some lo
        /\ nth_error blob (length_pos + 2) = Some hi
        /\ attempt
           = extract_text blob (Z.lor lo (Z.shiftl hi 8)) (length_pos + 4)
        /\ ((0 <= lo < 256)%Z -> (0 <= hi)%Z ->
            Z.lor lo (Z.shiftl hi 8) = (lo + 256 * hi)%Z))
  /\ ((128 <= length_byte)%Z -> Z.land length_byte 127 <> 1%Z ->
      Z.land length_byte 127 <> 2%Z ->
      attempt = Ok None
      /\ forall rest,
          for_first (try_pattern blob nsstring_pos) ((pattern, 0%nat) :: rest)
          = for_first (try_pattern blob nsstring_pos) rest).
Proof.
  intros _ _ Hfind length_pos Hnth attempt.
  assert (Hatt := try_pattern_length_field _ _ _ _ _ Hfind Hnth).
  fold length_pos attempt in Hatt. unfold length_field in Hatt.
  split.
  { intros Hlt. destruct (Z.leb_spec 128 length_byte); [lia|]. exact Hatt. }
  split.
  { intros H128 Hone Hlen.
    destruct (nth_error_in_bounds blob (length_pos + 1)) as [tl Htl]; [lia|].
    exists tl. split; [exact Htl|].
    apply Z.leb_le in H128. apply Nat.ltb_lt in Hlen.
    rewrite H128, Hone, Hlen, (getitem_nth_error _ _ _ Htl) in Hatt.
    exact Hatt. }
  split.
  { intros H128 Htwo Hlen.
    destruct (nth_error_in_bounds blob (length_pos + 1)) as [lo Hlo]; [lia|].
    destruct (nth_error_in_bounds blob (length_pos + 2)) as [hi Hhi]; [lia|].
    exists lo, hi. split; [exact Hlo|]. split; [exact Hhi|].
    split; [|apply lor_shiftl_little_endian].
    apply Z.leb_le in H128. apply Nat.ltb_lt in Hlen.
    rewrite H128, Htwo, Hlen, (getitem_nth_error _ _ _ Hlo),
      (getitem_nth_error _ _ _ Hhi) in Hatt.
    exact Hatt. }
  intros H128 Hn1 Hn2.
  assert (Hnone : attempt = Ok None).
  { apply Z.leb_le in H128. rewrite H128 in Hatt.
    apply Z.eqb_neq in Hn1. apply Z.eqb_neq in Hn2.
    rewrite Hn1, Hn2 in Hatt. exact Hatt. }
  split; [exact Hnone|].
  intros rest. cbn [for_first]. fold attempt. rewrite Hnone. reflexivity.
Qed.

Lemma length_descriptor_cases_witness :
  let blob : bytes :=
    (NSString ++ [132; 1; 43; 129; 5; 0; 104; 101; 108; 108; 111]
     ++ repeat 0 11)%Z%list in
  find blob NSString 0 = Some 0%nat
  /\ In ([132; 1; 43]%Z, 0%nat) patterns
  /\ find blob [132; 1; 43]%Z 0 = Some 8%nat
  /\ nth_error blob 11 = Some 129%Z
  /\ try_pattern blob 0 ([132; 1; 43]%Z, 0%nat)
     = Ok (Some [104; 101; 108; 108; 111]%Z).
Proof.
  intros blob.
  assert (H1 : find blob NSString 0 = Some 0%nat) by reflexivity.
  assert (H2 : In ([132; 1; 43]%Z, 0%nat) patterns)
    by (right; left; reflexivity).
  assert (H3 : find blob [132; 1; 43]%Z 0 = Some 8%nat) by reflexivity.
  assert (H4 : nth_error blob (8 + List.length [132; 1; 43]%Z) = Some 129%Z)
    by reflexivity.
  repeat (split; [assumption|]).
  destruct (length_descriptor_cases blob [132; 1; 43]%Z 0 8 129 H1 H2 H3 H4)
    as (_ & Hone & _ & _).
  destruct Hone as (tl & Htl & Heq);
    [lia|reflexivity|vm_compute; lia|].
  refine (eq_trans Heq _). vm_compute in Htl. injection Htl as <-.
  vm_compute. reflexivity.
Defined.

(** ** Sanitisation of accepted text *)

Lemma clean_control_spec (t : text) :
  exists rest,
    t = (clean_control t ++ rest)%list
    /\ Forall kept (clean_control t)
    /\ starts_with_control rest.
Proof.
  induction t as [|c r IH]; [exists []; repeat split; constructor|].
  simpl. unfold is_nl_tab_cr.
  destruct (Z.leb_spec 32 c) as [H32|H32]; cbn [orb].
  { destruct IH as (rest & Heq & Hall & Hrest). exists rest.
    split; [simpl; congruence|]. split; [|exact Hrest].
    constructor; [left; exact H32|exact Hall]. }
  destruct (Z.eqb_spec c 10) as [E10|E10]; cbn [orb].
  { destruct IH as (rest & Heq & Hall & Hrest). exists rest.
    split; [simpl; congruence|]. split; [|exact Hrest].
    constructor; [right; left; exact E10|exact Hall]. }
  destruct (Z.eqb_spec c 9) as [E9|E9]; cbn [orb].
  { destruct IH as (rest & Heq & Hall & Hrest). exists rest.
    split; [simpl; congruence|]. split; [|exact Hrest].
    constructor; [right; right; left; exact E9|exact Hall]. }
  destruct (Z.eqb_spec c 13) as [E13|E13].
  { destruct IH as (rest & Heq & Hall & Hrest). exists rest.
    split; [simpl; congruence|]. split; [|exact Hrest].
    constructor; [right; right; right; exact E13|exact Hall]. }
  destruct (Z.ltb_spec c 32); [|lia].
  exists (c :: r). split; [reflexivity|]. split; [constructor|].
  simpl. repeat split; assumption.
Qed.

Lemma lstrip_spec (t : text) :
  exists pre,
    t = (pre ++ lstrip t)%list
    /\ Forall (fun c => is_space c = true) pre
    /\ match lstrip t with [] => True | c :: _ => is_space c = false end.
Proof.
  induction t as [|c r IH]; [exists []; repeat split; constructor|].
  simpl. destruct (is_space c) eqn:E.
  - destruct IH as (pre & Heq & Hall & Hhd). exists (c :: pre).
    split; [simpl; congruence|]. split; [|exact Hhd].
    constructor; assumption.
  - exists []. split; [reflexivity|]. split; [constructor|exact E].
Qed.

Lemma strip_spec (t : text) :
  exists pre post,
    t = (pre ++ strip t ++ post)%list
    /\ Forall (fun c => is_space c = true) pre
    /\ Forall (fun c => is_space c = true) post
    /\ trimmed (strip t).
Proof.
  destruct (lstrip_spec t) as (pre & Ht & Hpre & Hhd).
  destruct (lstrip_spec (rev (lstrip t))) as (tsop & Hr & Htsop & Hlast).
  exists pre, (rev tsop).
  assert (Hl : lstrip t = (strip t ++ rev tsop)%list).
  { unfold strip, rstrip. rewrite <- rev_app_distr, <- Hr, rev_involutive.
    reflexivity. }
  split; [rewrite <- Hl; exact Ht|].
  split; [exact Hpre|].
  split.
  { apply List.Forall_forall. intros c Hc. apply in_rev in Hc.
    revert c Hc. apply List.Forall_forall. exact Htsop. }
  split.
  - rewrite Hl in Hhd. destruct (strip t); [exact I|exact Hhd].
  - unfold strip, rstrip. rewrite rev_involutive. exact Hlast.
Qed.

Lemma for_first_some {A B : Type} (body : A -> result (option B))
  (l : list A) (b : B) :
  for_first body l = Ok (Some b) ->
  exists x, In x l /\ body x = Ok (Some b).
Proof.
  induction l as [|x l IH]; [discriminate|].
  simpl. destruct (body x) as [[b'|]|e] eqn:E; cbn [bind]; intros H.
  - exists x. split; [left; reflexivity|]. congruence.
  - destruct (IH H) as (y & Hy & Hb). exists y. split; [right|]; assumption.
  - discriminate.
Qed.

Lemma except_unicode_decode_some {A : Type} (l : bytes)
  (k : text -> result (option A)) (a : A) :
  except_unicode (bind (decode_utf8 l) k) (Ok None) = Ok (Some a) ->
  exists c, utf8 l = Some c /\ k c = Ok (Some a).
Proof.
  unfold decode_utf8. destruct (utf8 l) as [c|]; simpl; [|discriminate].
  intros H. exists c. split; [reflexivity|].
  destruct (k c) as [r|[|]]; simpl in H; congruence.
Qed.

Lemma extract_text_some (blob : bytes) (text_length : Z) (text_start : nat)
  (t : text) :
  extract_text blob text_length text_start = Ok (Some t) ->
  exists c,
    utf8 (slice blob text_start (text_start + Z.to_nat text_length)) = Some c
    /\ t = sanitize c /\ t <> [].
Proof.
  unfold extract_text.
  match goal with |- context [if ?c then _ else _] => destruct c end;
    [|discriminate].
  intros H. apply except_unicode_decode_some in H as (c & Hc & Hk).
  exists c. split; [exact Hc|].
  destruct (Nat.ltb_spec 0 (List.length (sanitize c))) as [Hlen|];
    [|discriminate].
  injection Hk as <-. split; [reflexivity|].
  intros E. rewrite E in Hlen. simpl in Hlen. lia.
Qed.

Lemma try_pattern_some (blob : bytes) (nsstring_pos : nat) (pl : bytes * nat)
  (t : text) :
  try_pattern blob nsstring_pos pl = Ok (Some t) ->
  exists a b c, utf8 (slice blob a b) = Some c /\ t = sanitize c /\ t <> [].
Proof.
  destruct pl as [pattern off]. unfold try_pattern.
  destruct (find blob pattern nsstring_pos) as [pp|]; [|discriminate].
  match goal with |- context [(?a <? ?b)%nat] =>
    destruct (a <? b)%nat; [|discriminate] end.
  destruct (getitem blob (pp + List.length pattern + off)) as [lb|];
    [|discriminate].
  cbn [bind].
  destruct (length_field blob (pp + List.length pattern + off) lb)
    as [[[tl ts]|]|]; cbn [bind]; try discriminate.
  intros H. apply extract_text_some in H as (c & Hc & Ht & Hne).
  exists ts, (ts + Z.to_nat tl)%nat, c. auto.
Qed.

Lemma scan_at_some (isalnum : Z -> bool) (blob : bytes) (i : nat) (t : text) :
  scan_at isalnum blob i = Ok (Some t) ->
  exists a b c,
    utf8 (slice blob a b) = Some c /\ t = sanitize c
    /\ (2 <= List.length t)%nat /\ existsb isalnum c = true.
Proof.
  unfold scan_at. destruct (getitem blob i) as [pl|]; [|discriminate].
  cbn [bind].
  destruct ((2 <=? pl)%Z && (pl <=? 200)%Z); [|discriminate].
  match goal with |- context [(?a <=? ?b)%nat] =>
    destruct (a <=? b)%nat; [|discriminate] end.
  intros H. apply except_unicode_decode_some in H as (c & Hc & Hk).
  exists (i + 1)%nat, (i + 1 + Z.to_nat pl)%nat, c.
  split; [exact Hc|].
  destruct (existsb isalnum c) eqn:Ealnum; [|discriminate].
  cbn [andb] in Hk.
  destruct (negb (text_startswith c [78; 83]%Z)
            && negb (text_startswith c [95; 95]%Z)); [|discriminate].
  destruct (Nat.leb_spec 2 (List.length (sanitize c))) as [Hlen|];
    [|discriminate].
  injection Hk as <-. auto.
Qed.

(** *** The decoder as a first match over its attempts *)

Lemma nth_error_out_of_bounds (blob : bytes) (i : nat) :
  (List.length blob <= i)%nat -> nth_error blob i = None.
Proof. apply nth_error_None. Qed.

Lemma length_field_descriptor (blob : bytes) (length_pos : nat)
  (length_byte : Z) :
  nth_error blob length_pos = Some length_byte ->
  length_field blob length_pos length_byte = Ok (descriptor blob length_pos).
Proof.
  intros Hnth. unfold length_field, descriptor. rewrite Hnth.
  destruct (Z.leb_spec 128 length_byte) as [Hhi|Hlo];
    destruct (Z.ltb_spec length_byte 128); try lia; [|reflexivity].
  destruct (Z.land length_byte 127 =? 1)%Z eqn:E1; cbn [andb].
  - destruct (Nat.ltb_spec (length_pos + 2) (List.length blob)) as [Hlt|Hge].
    + destruct (nth_error_in_bounds blob (length_pos + 1)) as [n Hn]; [lia|].
      destruct (nth_error_in_bounds blob (length_pos + 2)) as [s Hs]; [lia|].
      rewrite (getitem_nth_error _ _ _ Hn), Hn, Hs. reflexivity.
    + assert (E2 : (Z.land length_byte 127 =? 2)%Z = false).
      { apply Z.eqb_eq in E1. apply Z.eqb_neq. lia. }
      rewrite E2. cbn [andb].
      rewrite (nth_error_out_of_bounds blob (length_pos + 2)) by lia.
      destruct (nth_error blob (length_pos + 1)); reflexivity.
  - destruct (Z.land length_byte 127 =? 2)%Z; cbn [andb]; [|reflexivity].
    destruct (Nat.ltb_spec (length_pos + 3) (List.length blob)) as [Hlt|Hge].
    + destruct (nth_error_in_bounds blob (length_pos + 1)) as [lo Hlo]; [lia|].
      destruct (nth_error_in_bounds blob (length_pos + 2)) as [hi Hh]; [lia|].
      destruct (nth_error_in_bounds blob (length_pos + 3)) as [s Hs]; [lia|].
      rewrite (getitem_nth_error _ _ _ Hlo), (getitem_nth_error _ _ _ Hh).
      rewrite Hlo, Hh, Hs. reflexivity.
    + rewrite (nth_error_out_of_bounds blob (length_pos + 3)) by lia.
      destruct (nth_error blob (length_pos + 1));
        destruct (nth_error blob (length_pos + 2)); reflexivity.
Qed.

Lemma extract_text_emitted (blob : bytes) (n : Z) (start : nat) :
  extract_text blob n start
  = Ok (emitted 1
          (if (1 <=? n)%Z && (n <=? 10000)%Z
              && (start + Z.to_nat n <=? List.length blob)%nat
           then utf8 (slice blob start (start + Z.to_nat n))
           else None)).
Proof.
  unfold extract_text.
  destruct ((1 <=? n)%Z && (n <=? 10000)%Z
            && (start + Z.to_nat n <=? List.length blob)%nat);
    [|reflexivity].
  unfold decode_utf8.
  destruct (utf8 (slice blob start (start + Z.to_nat n))) as [c|];
    [|reflexivity].
  cbn [bind emitted].
  change (0 <? List.length (sanitize c))%nat
    with (1 <=? List.length (sanitize c))%nat.
  destruct (1 <=? List.length (sanitize c))%nat; reflexivity.
Qed.

Lemma try_pattern_emitted (blob : bytes) (nsstring_pos : nat)
  (p : bytes * nat) :
  try_pattern blob nsstring_pos p
  = Ok (emitted 1 (marker_candidate blob nsstring_pos p)).
Proof.
  destruct p as [pattern off]. unfold try_pattern, marker_candidate.
  cbn [fst snd].
  destruct (find blob pattern nsstring_pos) as [pp|]; [|reflexivity].
  destruct (Nat.ltb_spec (pp + List.length pattern + off) (List.length blob))
    as [Hlt|Hge].
  - destruct (nth_error_in_bounds blob _ Hlt) as [lb Hlb].
    rewrite (getitem_nth_error _ _ _ Hlb). cbn [bind].
    rewrite (length_field_descriptor _ _ _ Hlb). cbn [bind].
    destruct (descriptor blob (pp + List.length pattern + off))
      as [[n start]|]; [apply extract_text_emitted|reflexivity].
  - unfold descriptor. rewrite nth_error_out_of_bounds by exact Hge.
    reflexivity.
Qed.

Lemma scan_at_emitted (isalnum : Z -> bool) (blob : bytes) (i : nat) :
  (i < List.length blob)%nat ->
  scan_at isalnum blob i = Ok (emitted 2 (scan_candidate isalnum blob i)).
Proof.
  intros Hi. unfold scan_at, scan_candidate.
  destruct (nth_error_in_bounds blob i Hi) as [n Hn].
  rewrite (getitem_nth_error _ _ _ Hn), Hn. cbn [bind].
  destruct ((2 <=? n)%Z && (n <=? 200)%Z); cbn [andb]; [|reflexivity].
  destruct (i + 1 + Z.to_nat n <=? List.length blob)%nat; [|reflexivity].
  unfold decode_utf8.
  destruct (utf8 (slice blob (i + 1) (i + 1 + Z.to_nat n))) as [c|];
    [|reflexivity].
  cbn [bind].
  destruct (existsb isalnum c && negb (text_startswith c [78; 83]%Z)
            && negb (text_startswith c [95; 95]%Z)); [|reflexivity].
  cbn [emitted except_unicode].
  destruct (2 <=? List.length (sanitize c))%nat; reflexivity.
Qed.

Lemma for_first_first_some {A B : Type} (body : A -> result (option B))
  (f : A -> option B) (l : list A) :
  (forall x, In x l -> body x = Ok (f x)) ->
  for_first body l = Ok (first_some (List.map f l)).
Proof.
  induction l as [|x l IH]; intros H; [reflexivity|].
  simpl. rewrite (H x) by (left; reflexivity). cbn [bind].
  destruct (f x); [reflexivity|].
  apply IH. intros y Hy. apply H. right. exact Hy.
Qed.

Lemma first_some_app {A : Type} (l1 l2 : list (option A)) :
  first_some (l1 ++ l2)
  = match first_some l1 with
    | Some a => Some a
    | None => first_some l2
    end.
Proof.
  induction l1 as [|[a|] l1 IH]; simpl; [reflexivity|reflexivity|exact IH].
Qed.

Lemma first_some_none {A : Type} (l : list (option A)) :
  first_some l = None <-> Forall (fun o => o = None) l.
Proof.
  induction l as [|[a|] l IH]; simpl.
  - split; [constructor|reflexivity].
  - split; [discriminate|]. intros H. inversion H; discriminate.
  - rewrite IH. split; [intros H; constructor; auto|].
    intros H. inversion H; assumption.
Qed.

Lemma decode_body_first_some (isalnum : Z -> bool) (blob : bytes) :
  decode_body isalnum blob
  = Ok (match find blob NSString 0 with
        | Some pos => first_some (attempts isalnum blob pos)
        | None => None
        end).
Proof.
  unfold decode_body. destruct (find blob NSString 0) as [pos|];
    [|reflexivity].
  unfold attempts. rewrite first_some_app.
  rewrite (for_first_first_some (try_pattern blob pos)
             (fun p => emitted 1 (marker_candidate blob pos p)))
    by (intros p _; apply try_pattern_emitted).
  cbn [bind].
  destruct (first_some
              (List.map (fun p => emitted 1 (marker_candidate blob pos p))
                        patterns)); [reflexivity|].
  apply for_first_first_some. intros i Hi.
  apply scan_at_emitted. apply scan_range_bound in Hi. lia.
Qed.

Lemma decode_attributed_body_first_some (isalnum : Z -> bool) (blob : bytes) :
  decode_attributed_body isalnum (Some blob)
  = match find blob NSString 0 with
    | Some pos => first_some (attempts isalnum blob pos)
    | None => None
    end.
Proof.
  destruct blob as [|b bs]; [reflexivity|].
  unfold decode_attributed_body. rewrite decode_body_first_some. reflexivity.
Qed.

(** C9, as the code has it: the character loop keeps the longest prefix of
    the candidate made of characters with code point at least 32 or equal to
    newline, tab or carriage return, and stops at the first other character;
    [strip] removes the whitespace around the result and nothing else; the
    candidate "hi\x00world" gives "hi".  A text returned by the decoder is
    the sanitised form of a strictly decoded slice of the blob, is never
    empty, and has at least two characters when it comes from the heuristic
    scan.  A candidate whose sanitised form is empty (format markers) or
    shorter than two characters (heuristic scan) is not emitted and does not
    end the decoding: the result is what the first attempt that emits a text
    emits, the attempts being the format markers in order and then the scan
    offsets in order; and the result is "undecodable" exactly when the
    anchor is missing or no attempt emits a text. *)
Theorem decoded_text_is_sanitized :
  (forall candidate : text,
      exists rest,
        candidate = (clean_control candidate ++ rest)%list
        /\ Forall kept (clean_control candidate)
        /\ starts_with_control rest)
  /\ (forall t : text,
        exists pre post,
          t = (pre ++ strip t ++ post)%list
          /\ Forall (fun c => is_space c = true) pre
          /\ Forall (fun c => is_space c = true) post
          /\ trimmed (strip t))
  /\ sanitize [104; 105; 0; 119; 111; 114; 108; 100]%Z = [104; 105]%Z
  /\ (forall (isalnum : Z -> bool) (blob : bytes) (t : text),
        decode_attributed_body isalnum (Some blob) = Some t ->
        exists (a b : nat) (candidate : text),
          utf8 (slice blob a b) = Some candidate
          /\ t = strip (clean_control candidate)
          /\ t <> []
          /\ ((exists pos p,
                  find blob NSString 0 = Some pos /\ In p patterns
                  /\ try_pattern blob pos p = Ok (Some t))
              \/ (exists i,
                     scan_at isalnum blob i = Ok (Some t)
                     /\ (2 <= List.length t)%nat)))
  /\ (forall (isalnum : Z -> bool) (blob : bytes),
        decode_attributed_body isalnum (Some blob)
        = match find blob NSString 0 with
          | Some pos => first_some (attempts isalnum blob pos)
          | None => None
          end)
  /\ (forall (isalnum : Z -> bool) (blob : bytes),
        decode_attributed_body isalnum (Some blob) = None
        <-> (find blob NSString 0 = None
             \/ exists pos,
                 find blob NSString 0 = Some pos
                 /\ Forall (fun o => o = None) (attempts isalnum blob pos))).
Proof.
  split; [exact clean_control_spec|].
  split; [exact strip_spec|].
  split; [reflexivity|].
  split; [|split; [exact decode_attributed_body_first_some|]].
  2: { intros isalnum blob. rewrite decode_attributed_body_first_some.
       destruct (find blob NSString 0) as [pos|].
       - rewrite first_some_none. split.
         + intros H. right. exists pos. auto.
         + intros [H|(pos' & Hpos & H)]; [discriminate|].
           injection Hpos as <-. exact H.
       - split; [auto|reflexivity]. }
  intros isalnum blob t H.
  assert (Hbody : decode_body isalnum blob = Ok (Some t)).
  { destruct blob as [|b0 bs]; [discriminate|].
    unfold decode_attributed_body in H.
    destruct (decode_body isalnum (b0 :: bs)) as [r|]; congruence. }
  clear H. unfold decode_body in Hbody.
  destruct (find blob NSString 0) as [pos|] eqn:Hpos; [|discriminate].
  destruct (for_first (try_pattern blob pos) patterns) as [[t'|]|] eqn:Hpat;
    cbn [bind] in Hbody; [| |discriminate].
  - injection Hbody as ->.
    apply for_first_some in Hpat as (p & Hin & Hp).
    destruct (try_pattern_some _ _ _ _ Hp) as (a & b & c & Hc & Ht & Hne).
    exists a, b, c. repeat split; try assumption.
    left. exists pos, p. auto.
  - apply for_first_some in Hbody as (i & _ & Hi).
    destruct (scan_at_some _ _ _ _ Hi) as (a & b & c & Hc & Ht & Hlen & _).
    exists a, b, c. repeat split; try assumption.
    + intros E. rewrite E in Hlen. simpl in Hlen. lia.
    + right. exists i. auto.
Qed.

Lemma decoded_text_is_sanitized_witness :
  let blob : bytes :=
    (NSString ++ [132; 1; 43; 8; 104; 105; 0; 119; 111; 114; 108; 100]
     ++ repeat 0 11)%Z%list in
  decode_attributed_body ascii_isalnum (Some blob) = Some [104; 105]%Z
  /\ exists (a b : nat) (candidate : text),
      utf8 (slice blob a b) = Some candidate
      /\ [104; 105]%Z = strip (clean_control candidate).
Proof.
  intros blob.
  assert (H : decode_attributed_body ascii_isalnum (Some blob)
              = Some [104; 105]%Z) by (vm_compute; reflexivity).
  split; [exact H|].
  destruct decoded_text_is_sanitized as (_ & _ & _ & Hdec & _).
  destruct (Hdec ascii_isalnum blob _ H) as (a & b & c & Hc & Ht & _).
  exists a, b, c. split; assumption.
Defined.

(** C9 as stated fails in two ways.  In the first blob the marker candidate
    is the single character U+0000, which sanitises to the empty text, and
    the decoder does not report "undecodable": it goes on and returns "hi"
    from the heuristic scan.  In the second blob the heuristic scan accepts
    the candidate "a\x00", whose sanitised form "a" is not empty, and the
    decoder returns nothing. *)
Lemma sanitized_empty_not_final :
  let blob1 : bytes :=
    (NSString ++ [132; 1; 43; 1; 0; 2; 104; 105] ++ repeat 0 8)%Z%list in
  let blob2 : bytes := (NSString ++ [2; 97; 0] ++ repeat 0 11)%Z%list in
  (find blob1 [132; 1; 43]%Z 0 = Some 8%nat
   /\ length_field blob1 11 1 = Ok (Some (1%Z, 12%nat))
   /\ utf8 (slice blob1 12 13) = Some [0%Z]
   /\ sanitize [0%Z] = []
   /\ decode_attributed_body ascii_isalnum (Some blob1) = Some [104; 105]%Z)
  /\ (utf8 (slice blob2 9 11) = Some [97; 0]%Z
      /\ existsb ascii_isalnum [97; 0]%Z = true
      /\ sanitize [97; 0]%Z = [97%Z]
      /\ decode_attributed_body ascii_isalnum (Some blob2) = None).
Proof. vm_compute. repeat split; reflexivity. Qed.

(** ** Merging messages *)

Lemma elem_of_id_set {A : Type} `{Countable K} (f : A -> K) (l : list A)
  (x : K) :
  x ∈ (list_to_set (List.map f l) : gset K) <-> In x (List.map f l).
Proof. rewrite elem_of_list_to_set. apply list_elem_of_In. Qed.

Lemma new_messages_in (P N : Dataset) (m : Message.t) :
  In m (new_messages P N)
  <-> In m (messages N)
      /\ ~ In (Message.id m) (List.map Message.id (messages P)).
Proof.
  unfold new_messages. rewrite filter_In, bool_decide_eq_true.
  unfold not. rewrite elem_of_id_set. reflexivity.
Qed.

Lemma filter_nil_all_false {A : Type} (f : A -> bool) (l : list A) :
  (forall x, In x l -> f x = false) -> List.filter f l = [].
Proof.
  induction l as [|x l IH]; intros H; [reflexivity|].
  simpl. rewrite (H x) by (left; reflexivity).
  apply IH. intros y Hy. apply H. right. exact Hy.
Qed.

Lemma new_messages_self (D : Dataset) : new_messages D D = [].
Proof.
  unfold new_messages. apply filter_nil_all_false. intros m Hm.
  apply bool_decide_eq_false. intros Hnot. apply Hnot.
  apply elem_of_id_set. apply in_map. exact Hm.
Qed.

Section Merge.

Variable iso_hour : string -> option nat.
Variable oracle : string -> option string.

Lemma cmd_update_messages_eq (P N : Dataset) :
  messages (cmd_update iso_hour oracle P N)
  = (new_messages P N ++ messages P)%list.
Proof.
  unfold cmd_update. destruct (new_messages P N) eqn:Enew.
  - destruct (messages N); reflexivity.
  - destruct (messages N) eqn:EN; [|reflexivity].
    unfold new_messages in Enew. rewrite EN in Enew. discriminate.
Qed.

Lemma cmd_update_no_new (P N : Dataset) :
  new_messages P N = [] -> cmd_update iso_hour oracle P N = P.
Proof.
  intros H. unfold cmd_update. rewrite H.
  destruct (messages N); reflexivity.
Qed.

Lemma cmd_update_self (D : Dataset) : cmd_update iso_hour oracle D D = D.
Proof. apply cmd_update_no_new, new_messages_self. Qed.

End Merge.

(** C1: the merged message list is the list of new messages followed by the
    prior messages; the new messages are those of the new dataset, in their
    order, whose id is not the id of a prior message; and merging a dataset
    into itself leaves it unchanged, so that a second self-merge gives the
    same number of messages as the first. *)
Theorem cmd_update_prepends_new_messages
  (iso_hour : string -> option nat) (oracle : string -> option string) :
  (forall P N : Dataset,
      messages (cmd_update iso_hour oracle P N)
      = (new_messages P N ++ messages P)%list
      /\ new_messages P N
         = List.filter
             (fun m =>
                negb (existsb (Z.eqb (Message.id m))
                              (List.map Message.id (messages P))))
             (messages N)
      /\ forall m,
          In m (new_messages P N)
          <-> In m (messages N)
              /\ ~ In (Message.id m) (List.map Message.id (messages P)))
  /\ (forall D : Dataset,
        cmd_update iso_hour oracle D D = D
        /\ List.length
             (messages (cmd_update iso_hour oracle
                          (cmd_update iso_hour oracle D D) D))
           = List.length (messages (cmd_update iso_hour oracle D D))).
Proof.
  split.
  - intros P N. split; [apply cmd_update_messages_eq|].
    split; [|apply new_messages_in].
    unfold new_messages. apply filter_ext. intros m.
    destruct (existsb (Z.eqb (Message.id m))
                (List.map Message.id (messages P))) eqn:E; simpl.
    + apply bool_decide_eq_false. intros Hnot. apply Hnot.
      apply elem_of_id_set. apply existsb_exists in E as (x & Hx & Hxe).
      apply Z.eqb_eq in Hxe. subst x. exact Hx.
    + apply bool_decide_eq_true. intros Hin. apply elem_of_id_set in Hin.
      assert (Ht : existsb (Z.eqb (Message.id m))
                     (List.map Message.id (messages P)) = true).
      { apply existsb_exists. exists (Message.id m).
        split; [exact Hin|apply Z.eqb_refl]. }
      congruence.
  - intros D. split; [apply cmd_update_self|].
    rewrite !cmd_update_self. reflexivity.
Qed.

(** ** Statistics after a merge *)

(** C8, as the code has it: when the merge adds at least one new message,
    the statistics of the result are [calculate_statistics] of the merged
    message list and the merged contact list; when no message is new, the
    prior dataset is returned as it is, statistics included. *)
Theorem cmd_update_recomputes_statistics
  (iso_hour : string -> option nat) (oracle : string -> option string)
  (P N : Dataset) :
  let merged := cmd_update iso_hour oracle P N in
  (new_messages P N <> [] ->
   statistics merged
   = calculate_statistics iso_hour (messages merged) (contacts merged)
   /\ messages merged = (new_messages P N ++ messages P)%list)
  /\ (new_messages P N = [] -> merged = P).
Proof.
  intros merged. split; [|apply cmd_update_no_new].
  intros Hnew. split; [|apply cmd_update_messages_eq].
  subst merged. unfold cmd_update.
  destruct (messages N) eqn:EN.
  { exfalso. apply Hnew. unfold new_messages. rewrite EN. reflexivity. }
  destruct (new_messages P N); [contradiction|reflexivity].
Qed.

Lemma cmd_update_recomputes_statistics_witness :
  let P := sample_extract [row_alice] in
  let N := sample_extract [row_other; row_alice] in
  new_messages P N <> []
  /\ totalMessages (statistics (sample_update P N)) = 2%nat
  /\ statistics (sample_update P N)
     = calculate_statistics simple_iso_hour (messages (sample_update P N))
         (contacts (sample_update P N)).
Proof.
  intros P N.
  assert (Hnew : new_messages P N <> []) by (vm_compute; discriminate).
  split; [exact Hnew|].
  destruct (cmd_update_recomputes_statistics simple_iso_hour no_oracle P N)
    as [Hre _].
  destruct (Hre Hnew) as [Hstat _].
  split; [|exact Hstat].
  unfold sample_update. rewrite Hstat. vm_compute. reflexivity.
Defined.

(** C8 as stated fails: a dataset saved by a full export that found one
    image, updated with rows that are all present already, keeps its
    statistics, which are not those [calculate_statistics] gives for its
    messages and contacts. *)
Lemma cmd_update_keeps_statistics :
  let P := with_images (sample_extract [row_alice]) ["IMG_0001.jpg"] in
  let N := sample_extract [row_alice] in
  messages N <> []
  /\ statistics (sample_update P N) = statistics P
  /\ statistics (sample_update P N)
     <> calculate_statistics simple_iso_hour (messages (sample_update P N))
          (contacts (sample_update P N)).
Proof.
  vm_compute. repeat split; [discriminate|discriminate].
Qed.

(** ** Sorting the contacts *)

Lemma insert_desc_perm (c : Contact.t) (l : list Contact.t) :
  Permutation (c :: l) (insert_desc c l).
Proof.
  induction l as [|y r IH]; simpl; [reflexivity|].
  destruct (Contact.messageCount y <=? Contact.messageCount c)%nat;
    [reflexivity|].
  rewrite perm_swap. apply perm_skip. exact IH.
Qed.

Lemma sort_desc_perm (l : list Contact.t) : Permutation l (sort_desc l).
Proof.
  induction l as [|c r IH]; simpl; [reflexivity|].
  rewrite <- insert_desc_perm. apply perm_skip. exact IH.
Qed.

Lemma insert_desc_sorted (c : Contact.t) (l : list Contact.t) :
  StronglySorted by_count_desc l ->
  StronglySorted by_count_desc (insert_desc c l).
Proof.
  induction l as [|y r IH]; intros Hs; simpl.
  { constructor; constructor. }
  inversion Hs as [|? ? Hr Hy]; subst.
  destruct (Nat.leb_spec (Contact.messageCount y) (Contact.messageCount c))
    as [Hle|Hgt].
  - constructor; [exact Hs|].
    constructor; [exact Hle|].
    eapply List.Forall_impl; [|exact Hy].
    intros z Hz. unfold by_count_desc in *. lia.
  - constructor; [apply IH; exact Hr|].
    eapply Permutation_Forall; [apply insert_desc_perm|].
    constructor; [unfold by_count_desc; lia|exact Hy].
Qed.

Lemma sort_desc_sorted (l : list Contact.t) :
  StronglySorted by_count_desc (sort_desc l).
Proof.
  induction l as [|c r IH]; simpl; [constructor|].
  apply insert_desc_sorted. exact IH.
Qed.

(** ** The assembly loop *)

Lemma new_contact_id (mappings : Mappings) (r : Row) (n : nat) :
  Contact.id (new_contact mappings r n) = n.
Proof.
  unfold new_contact. destruct (is_group (chat_identifier r)).
  - destruct (get_group_chat_info _ mappings) as [mdn parts].
    destruct (truthy_opt (chat_display_name r)); [reflexivity|].
    destruct (truthy_opt mdn); reflexivity.
  - reflexivity.
Qed.

Lemma new_contact_count (mappings : Mappings) (r : Row) (n : nat) :
  Contact.messageCount (new_contact mappings r n) = 0%nat.
Proof.
  unfold new_contact. destruct (is_group (chat_identifier r)).
  - destruct (get_group_chat_info _ mappings) as [mdn parts].
    destruct (truthy_opt (chat_display_name r)); [reflexivity|].
    destruct (truthy_opt mdn); reflexivity.
  - reflexivity.
Qed.

Lemma dict_get_app_new (d : contacts_dict) (k : string) (c : Contact.t) :
  dict_get d k = None ->
  dict_get (dict_incr (d ++ [(k, c)])%list k) k
  = Some (Contact.with_messageCount c (S (Contact.messageCount c)))
  /\ dict_incr (d ++ [(k, c)])%list k
     = (d ++ [(k, Contact.with_messageCount c (S (Contact.messageCount c)))])%list.
Proof.
  induction d as [|[k' c'] d IH]; simpl; intros H.
  - rewrite String.eqb_refl. simpl. rewrite String.eqb_refl. auto.
  - destruct (String.eqb k' k) eqn:E; [discriminate|].
    simpl. rewrite E. destruct (IH H) as [H1 H2]. rewrite H1, H2. auto.
Qed.

Lemma dict_get_incr (d : contacts_dict) (k : string) (c : Contact.t) :
  dict_get d k = Some c ->
  dict_get (dict_incr d k) k
  = Some (Contact.with_messageCount c (S (Contact.messageCount c))).
Proof.
  induction d as [|[k' c'] d IH]; simpl; [discriminate|].
  destruct (String.eqb k' k) eqn:E; simpl; rewrite E.
  - intros H. injection H as <-. reflexivity.
  - exact IH.
Qed.

Lemma dict_get_in (d : contacts_dict) (k : string) (c : Contact.t) :
  dict_get d k = Some c -> In c (List.map snd d).
Proof.
  induction d as [|[k' c'] d IH]; simpl; [discriminate|].
  destruct (String.eqb k' k).
  - intros H. injection H as <-. left. reflexivity.
  - intros H. right. apply IH. exact H.
Qed.

Lemma dict_incr_ids (d : contacts_dict) (k : string) :
  List.map Contact.id (List.map snd (dict_incr d k))
  = List.map Contact.id (List.map snd d).
Proof.
  induction d as [|[k' c'] d IH]; simpl; [reflexivity|].
  destruct (String.eqb k' k); simpl; [reflexivity|].
  rewrite IH. reflexivity.
Qed.

Lemma dict_incr_counts (d : contacts_dict) (k : string) (c0 : Contact.t)
  (f : nat -> nat) :
  dict_get d k = Some c0 ->
  List.NoDup (List.map Contact.id (List.map snd d)) ->
  Forall (fun c => Contact.messageCount c = f (Contact.id c))
         (List.map snd d) ->
  Forall
    (fun c =>
       Contact.messageCount c
       = (f (Contact.id c)
          + (if (Contact.id c0 =? Contact.id c)%nat then 1 else 0))%nat)
    (List.map snd (dict_incr d k)).
Proof.
  induction d as [|[k' c'] d IH]; simpl; [discriminate|].
  intros Hget Hnd Hall.
  inversion Hnd as [|? ? Hnotin Hnd']; subst.
  inversion Hall as [|? ? Hc' Hall']; subst.
  destruct (String.eqb k' k) eqn:E.
  - injection Hget as <-. simpl. constructor.
    + simpl. rewrite Nat.eqb_refl. lia.
    + apply List.Forall_forall. intros c Hc.
      assert (Hne : Contact.id c' <> Contact.id c).
      { intros Heq. apply Hnotin. rewrite Heq. apply in_map. exact Hc. }
      apply Nat.eqb_neq in Hne. rewrite Hne.
      rewrite List.Forall_forall in Hall'. rewrite (Hall' c Hc). lia.
  - simpl. constructor; [|apply IH; assumption].
    assert (Hne : Contact.id c0 <> Contact.id c').
    { intros Heq. apply Hnotin. rewrite <- Heq. apply in_map.
      eapply dict_get_in. exact Hget. }
    apply Nat.eqb_neq in Hne. rewrite Hne. lia.
Qed.

Lemma count_refs_snoc (cid : nat) (ms : list Message.t) (m : Message.t) :
  count_refs cid (ms ++ [m])%list
  = (count_refs cid ms
     + (if (Message.contactId m =? cid)%nat then 1 else 0))%nat.
Proof.
  unfold count_refs. rewrite List.filter_app, List.length_app. simpl.
  destruct (Message.contactId m =? cid)%nat; reflexivity.
Qed.

Lemma count_refs_above (n cid : nat) (ms : list Message.t) :
  Forall (fun m => (1 <= Message.contactId m <= n)%nat) ms ->
  (n < cid)%nat ->
  count_refs cid ms = 0%nat.
Proof.
  intros Hall Hlt. unfold count_refs.
  rewrite filter_nil_all_false; [reflexivity|].
  intros m Hm. rewrite List.Forall_forall in Hall.
  apply Nat.eqb_neq. specialize (Hall m Hm). lia.
Qed.

Lemma dict_incr_length (d : contacts_dict) (k : string) :
  List.length (List.map snd (dict_incr d k)) = List.length (List.map snd d).
Proof.
  rewrite <- (List.length_map Contact.id), dict_incr_ids, List.length_map.
  reflexivity.
Qed.

Section AssemblyInvariant.

Variable isalnum : Z -> bool.
Variable mappings : Mappings.

Lemma process_row_skip (st : AsmState) (r : Row) :
  message_content isalnum r = None ->
  process_row isalnum mappings st r = st.
Proof. intros H. unfold process_row. rewrite H. reflexivity. Qed.

Lemma process_row_known (st : AsmState) (r : Row) (content : text)
  (c0 : Contact.t) :
  message_content isalnum r = Some content ->
  dict_get (asm_contacts st) (contact_key_of r) = Some c0 ->
  process_row isalnum mappings st r
  = mkAsm (dict_incr (asm_contacts st) (contact_key_of r))
      (asm_messages st
         ++ [Message.mk (message_id r) (Contact.id c0) content
               (message_date r) (is_from_me r)])%list
      (contact_id_counter st).
Proof.
  intros Hc Hget. unfold process_row. rewrite Hc, Hget.
  rewrite (dict_get_incr _ _ _ Hget). reflexivity.
Qed.

Lemma process_row_fresh (st : AsmState) (r : Row) (content : text) :
  message_content isalnum r = Some content ->
  dict_get (asm_contacts st) (contact_key_of r) = None ->
  process_row isalnum mappings st r
  = mkAsm
      (asm_contacts st
         ++ [(contact_key_of r,
              Contact.with_messageCount
                (new_contact mappings r (contact_id_counter st)) 1)])%list
      (asm_messages st
         ++ [Message.mk (message_id r) (contact_id_counter st) content
               (message_date r) (is_from_me r)])%list
      (S (contact_id_counter st)).
Proof.
  intros Hc Hget. unfold process_row. rewrite Hc, Hget.
  destruct (dict_get_app_new _ _
              (new_contact mappings r (contact_id_counter st)) Hget)
    as [H1 H2].
  rewrite H1, H2. cbn [Contact.id Contact.with_messageCount].
  rewrite new_contact_id, new_contact_count. reflexivity.
Qed.

Lemma process_row_inv (st : AsmState) (r : Row) :
  asm_inv st -> asm_inv (process_row isalnum mappings st r).
Proof.
  intros (Hids & Hcnt & Hcounts & Hrefs).
  destruct (message_content isalnum r) as [content|] eqn:Hc;
    [|rewrite process_row_skip by exact Hc; repeat split; assumption].
  set (cs := asm_contacts st) in *.
  set (n := List.length (List.map snd cs)) in *.
  destruct (dict_get cs (contact_key_of r)) as [c0|] eqn:Hget.
  - rewrite (process_row_known _ _ _ _ Hc Hget). fold cs.
    assert (Hin0 : (1 <= Contact.id c0 <= n)%nat).
    { assert (Hin : In (Contact.id c0) (seq 1 n)).
      { rewrite <- Hids. apply in_map. eapply dict_get_in. exact Hget. }
      apply in_seq in Hin. lia. }
    unfold asm_inv.
    cbn [asm_contacts asm_messages contact_id_counter].
    rewrite dict_incr_length, dict_incr_ids. fold n.
    split; [exact Hids|]. split; [exact Hcnt|]. split.
    + eapply List.Forall_impl;
        [|apply (dict_incr_counts cs _ c0
                   (fun x => count_refs x (asm_messages st)) Hget);
          [rewrite Hids; apply seq_NoDup|exact Hcounts]].
      intros c Hcount. cbn beta in Hcount.
      rewrite count_refs_snoc. exact Hcount.
    + apply List.Forall_app. split; [exact Hrefs|].
      constructor; [exact Hin0|constructor].
  - rewrite (process_row_fresh _ _ _ Hc Hget). fold cs.
    unfold asm_inv.
    cbn [asm_contacts asm_messages contact_id_counter].
    rewrite List.map_app, List.map_app, List.length_app.
    cbn [List.map snd List.length Contact.id Contact.with_messageCount].
    rewrite new_contact_id. fold n. rewrite Hcnt.
    split.
    { rewrite Hids, Nat.add_1_r, seq_S. reflexivity. }
    split; [lia|]. split.
    + apply List.Forall_app. split.
      * rewrite List.Forall_forall in Hcounts.
        apply List.Forall_forall. intros c Hin.
        rewrite count_refs_snoc, (Hcounts c Hin).
        cbn [Message.contactId].
        assert (Hidc : In (Contact.id c) (seq 1 n))
          by (rewrite <- Hids; apply in_map; exact Hin).
        apply in_seq in Hidc.
        destruct (Nat.eqb_spec (S n) (Contact.id c)); lia.
      * constructor; [|constructor].
        cbn [Contact.messageCount Contact.id Contact.with_messageCount].
        rewrite new_contact_id, count_refs_snoc.
        rewrite (count_refs_above n); [|exact Hrefs|lia].
        cbn [Message.contactId]. rewrite Nat.eqb_refl. reflexivity.
    + apply List.Forall_app. split.
      * eapply List.Forall_impl; [|exact Hrefs].
        intros m Hm. cbn beta in Hm. lia.
      * constructor; [cbn [Message.contactId]; lia|constructor].
Qed.

Lemma fold_process_row_inv (rows : list Row) (st : AsmState) :
  asm_inv st -> asm_inv (fold_left (process_row isalnum mappings) rows st).
Proof.
  revert st. induction rows as [|r rows IH]; intros st H; [exact H|].
  simpl. apply IH, process_row_inv, H.
Qed.

Lemma process_rows_inv (rows : list Row) :
  asm_inv (process_rows isalnum mappings rows).
Proof.
  apply fold_process_row_inv. unfold asm_inv, initial_state. simpl.
  repeat split; constructor.
Qed.

End AssemblyInvariant.

(** ** Contacts after assembly and after a merge *)

Lemma id_counts_with_name (c : Contact.t) (s : string) :
  (Contact.id (Contact.with_name c s),
   Contact.messageCount (Contact.with_name c s))
  = (Contact.id c, Contact.messageCount c).
Proof. reflexivity. Qed.

Lemma id_counts_resolve (oracle : string -> option string)
  (cs : list Contact.t) (limit : nat) :
  id_counts (resolve_unresolved_contacts oracle cs limit) = id_counts cs.
Proof.
  unfold resolve_unresolved_contacts.
  destruct (unresolved_phones cs); [reflexivity|].
  destruct (resolve_contacts_via_applescript oracle _ limit) as [|e d];
    [reflexivity|].
  unfold id_counts. rewrite List.map_map. apply List.map_ext. intros c.
  unfold rename_contact.
  destruct (resolved_get (e :: d) (Contact.phone c)); [reflexivity|].
  destruct (resolved_by_digits (e :: d) _); reflexivity.
Qed.

Lemma cmd_update_id_counts (iso_hour : string -> option nat)
  (oracle : string -> option string) (P N : Dataset) :
  id_counts (contacts (cmd_update iso_hour oracle P N))
  = id_counts
      (contacts P
       ++ match new_messages P N with
          | [] => []
          | _ => new_contacts P N
          end)%list.
Proof.
  destruct (new_messages P N) as [|m ms] eqn:Hnew.
  { rewrite cmd_update_no_new by exact Hnew. rewrite List.app_nil_r.
    reflexivity. }
  unfold cmd_update. rewrite Hnew.
  destruct (messages N) eqn:EN.
  { unfold new_messages in Hnew. rewrite EN in Hnew. discriminate. }
  cbn [contacts].
  destruct (0 <? List.length (new_contacts P N))%nat;
    [apply id_counts_resolve|reflexivity].
Qed.

Lemma id_counts_ids (cs : list Contact.t) :
  List.map fst (id_counts cs) = List.map Contact.id cs.
Proof. unfold id_counts. rewrite List.map_map. reflexivity. Qed.

(** C6, as the code has it: after every assembly run the contacts list is
    sorted by [messageCount], largest first.  A merge keeps the prior
    contacts in their order, with their counts, and appends after them, in
    the order of the new dataset, the new contacts whose id is not a prior
    contact id (none when no message is new); the list is not sorted
    again. *)
Theorem contacts_sorted_after_assembly
  (isalnum : Z -> bool) (iso_hour : string -> option nat)
  (oracle : string -> option string) (mappings : Mappings) :
  (forall rows : list Row,
      StronglySorted by_count_desc
        (contacts (extract_messages isalnum iso_hour mappings rows)))
  /\ (forall P N : Dataset,
        id_counts (contacts (cmd_update iso_hour oracle P N))
        = id_counts
            (contacts P
             ++ match new_messages P N with
                | [] => []
                | _ => new_contacts P N
                end)%list).
Proof.
  split; [|apply cmd_update_id_counts].
  intros rows. unfold extract_messages. cbn [contacts].
  apply sort_desc_sorted.
Qed.

(** C6 as stated fails after a merge.  The prior dataset has one contact
    with one message.  The newly extracted rows, most recent first as the
    query returns them and all later than the stored message, are one row
    from another number followed by two rows of a group thread, so that the
    second contact of the new assembly has two messages.  After the merge the
    contacts are in the order of counts 1, 2. *)
Lemma cmd_update_contacts_unsorted :
  let P := sample_extract [row_alice] in
  let N := sample_extract [row_late; row_group2; row_group1] in
  List.map message_date [row_late; row_group2; row_group1; row_alice]
  = ["2024-03-04 12:00:00"; "2024-03-03 07:05:00"; "2024-03-03 07:00:00";
     "2024-03-01 09:15:00"]
  /\ List.map Contact.messageCount (contacts (sample_update P N)) = [1; 2]%nat
  /\ ~ StronglySorted by_count_desc (contacts (sample_update P N)).
Proof.
  intros P N.
  assert (Hc : List.map Contact.messageCount (contacts (sample_update P N))
               = [1; 2]%nat) by (vm_compute; reflexivity).
  split; [reflexivity|].
  split; [exact Hc|].
  intros Hs.
  destruct (contacts (sample_update P N)) as [|a [|b [|c l]]];
    try discriminate.
  injection Hc as Ha Hb.
  inversion Hs as [|? ? _ Hall]; subst.
  inversion Hall as [|? ? Hab _]; subst.
  unfold by_count_desc in Hab. lia.
Qed.

(** ** References and counts *)

Lemma one_contact_per_id (cs : list Contact.t) (x : nat) :
  List.NoDup (List.map Contact.id cs) ->
  In x (List.map Contact.id cs) ->
  List.length (List.filter (fun c => (Contact.id c =? x)%nat) cs) = 1%nat.
Proof.
  induction cs as [|c cs IH]; simpl; intros Hnd Hin; [contradiction|].
  inversion Hnd as [|? ? Hnotin Hnd']; subst.
  destruct (Nat.eqb_spec (Contact.id c) x) as [E|E].
  - simpl. f_equal. rewrite filter_nil_all_false; [reflexivity|].
    intros y Hy. apply Nat.eqb_neq. intros Hyx. apply Hnotin.
    rewrite E, <- Hyx. apply in_map. exact Hy.
  - destruct Hin as [Hin|Hin]; [contradiction|]. apply IH; assumption.
Qed.

Lemma well_referenced_one_contact (d : Dataset) :
  well_referenced d -> references_one_contact d.
Proof.
  intros [Hnd Hrefs]. unfold references_one_contact.
  eapply List.Forall_impl; [|exact Hrefs].
  intros m Hm. apply one_contact_per_id; assumption.
Qed.

Lemma NoDup_map_filter {A B : Type} (f : A -> B) (p : A -> bool)
  (l : list A) :
  List.NoDup (List.map f l) -> List.NoDup (List.map f (List.filter p l)).
Proof.
  induction l as [|x l IH]; simpl; intros H; [constructor|].
  inversion H as [|? ? Hnotin Hnd]; subst.
  destruct (p x); [|apply IH; exact Hnd].
  simpl. constructor; [|apply IH; exact Hnd].
  intros Hin. apply Hnotin. apply in_map_iff in Hin as (y & Hy & Hyin).
  apply filter_In in Hyin as [Hyin _]. rewrite <- Hy. apply in_map. exact Hyin.
Qed.

Lemma new_contacts_in (P N : Dataset) (c : Contact.t) :
  In c (new_contacts P N)
  <-> In c (contacts N)
      /\ ~ In (Contact.id c) (List.map Contact.id (contacts P)).
Proof.
  unfold new_contacts. rewrite filter_In, bool_decide_eq_true.
  unfold not. rewrite elem_of_id_set. reflexivity.
Qed.

Section References.

Variable isalnum : Z -> bool.
Variable iso_hour : string -> option nat.
Variable oracle : string -> option string.
Variable mappings : Mappings.

Lemma extract_messages_well_referenced (rows : list Row) :
  well_referenced (extract_messages isalnum iso_hour mappings rows).
Proof.
  destruct (process_rows_inv isalnum mappings rows)
    as (Hids & _ & _ & Hrefs).
  unfold well_referenced, extract_messages. cbn [contacts messages].
  set (cs := List.map snd
               (asm_contacts (process_rows isalnum mappings rows))) in *.
  assert (Hperm : Permutation (List.map Contact.id cs)
                    (List.map Contact.id (sort_desc cs)))
    by apply Permutation_map, sort_desc_perm.
  split.
  - eapply Permutation.Permutation_NoDup; [exact Hperm|].
    rewrite Hids. apply seq_NoDup.
  - eapply List.Forall_impl; [|exact Hrefs].
    intros m Hm. cbn beta in Hm.
    eapply Permutation_in; [exact Hperm|].
    rewrite Hids. apply in_seq. lia.
Qed.

Lemma extract_messages_counts_match (rows : list Row) :
  counts_match (extract_messages isalnum iso_hour mappings rows).
Proof.
  destruct (process_rows_inv isalnum mappings rows)
    as (_ & _ & Hcounts & _).
  unfold counts_match, extract_messages. cbn [contacts messages].
  eapply Permutation_Forall; [apply sort_desc_perm|exact Hcounts].
Qed.

Lemma cmd_update_well_referenced (P N : Dataset) :
  well_referenced P -> well_referenced N ->
  well_referenced (cmd_update iso_hour oracle P N).
Proof.
  intros [HndP HrefP] [HndN HrefN].
  destruct (new_messages P N) as [|m0 ms0] eqn:Hnew.
  { rewrite cmd_update_no_new by exact Hnew. split; assumption. }
  assert (Hids : List.map Contact.id
                   (contacts (cmd_update iso_hour oracle P N))
                 = (List.map Contact.id (contacts P)
                    ++ List.map Contact.id (new_contacts P N))%list).
  { rewrite <- (id_counts_ids (contacts (cmd_update iso_hour oracle P N))).
    rewrite cmd_update_id_counts, Hnew, id_counts_ids, List.map_app.
    reflexivity. }
  unfold well_referenced. rewrite Hids, cmd_update_messages_eq, Hnew.
  split.
  - apply List.NoDup_app; [exact HndP| |].
    + unfold new_contacts. apply NoDup_map_filter. exact HndN.
    + intros a Ha Hb. apply in_map_iff in Hb as (c & Hc & Hcin).
      apply new_contacts_in in Hcin as [_ Hnot]. apply Hnot.
      rewrite Hc. exact Ha.
  - apply List.Forall_app. split.
    + apply List.Forall_forall. intros m Hm. rewrite <- Hnew in Hm.
      apply new_messages_in in Hm as [HmN _].
      rewrite List.Forall_forall in HrefN. specialize (HrefN m HmN).
      apply in_or_app.
      destruct (in_dec Nat.eq_dec (Message.contactId m)
                  (List.map Contact.id (contacts P))) as [Hin|Hnin];
        [left; exact Hin|right].
      apply in_map_iff in HrefN as (c & Hc & Hcin).
      apply in_map_iff. exists c. split; [exact Hc|].
      apply new_contacts_in. split; [exact Hcin|]. rewrite Hc. exact Hnin.
    + eapply List.Forall_impl; [|exact HrefP].
      intros m Hm. apply in_or_app. left. exact Hm.
Qed.

End References.

(** C7, as the code has it: in every dataset produced by assembly, contact
    ids are pairwise distinct, each message's [contactId] is the id of
    exactly one contact of the list, and each contact's [messageCount] is
    the number of messages whose [contactId] is its id.  A merge of two
    datasets with distinct contact ids and valid references again has
    distinct contact ids and every message referencing exactly one contact;
    the counts of its contacts are those the input contacts carried. *)
Theorem assembly_references_and_counts
  (isalnum : Z -> bool) (iso_hour : string -> option nat)
  (oracle : string -> option string) (mappings : Mappings) :
  (forall rows : list Row,
      let d := extract_messages isalnum iso_hour mappings rows in
      well_referenced d /\ references_one_contact d /\ counts_match d)
  /\ (forall P N : Dataset,
        well_referenced P -> well_referenced N ->
        well_referenced (cmd_update iso_hour oracle P N)
        /\ references_one_contact (cmd_update iso_hour oracle P N))
  /\ (forall P N : Dataset,
        id_counts (contacts (cmd_update iso_hour oracle P N))
        = id_counts
            (contacts P
             ++ match new_messages P N with
                | [] => []
                | _ => new_contacts P N
                end)%list).
Proof.
  split.
  { intros rows d.
    assert (Hw : well_referenced d) by apply extract_messages_well_referenced.
    split; [exact Hw|].
    split; [apply well_referenced_one_contact, Hw|].
    apply extract_messages_counts_match. }
  split; [|apply cmd_update_id_counts].
  intros P N HP HN.
  assert (Hw := cmd_update_well_referenced iso_hour oracle P N HP HN).
  split; [exact Hw|apply well_referenced_one_contact, Hw].
Qed.

Lemma assembly_references_and_counts_witness :
  let P := sample_extract [row_alice; row_group1] in
  let N := sample_extract [row_other; row_group2; row_alice] in
  well_referenced P /\ well_referenced N
  /\ references_one_contact (sample_update P N).
Proof.
  intros P N.
  destruct (assembly_references_and_counts ascii_isalnum simple_iso_hour
              no_oracle sample_store) as (Hasm & Hmerge & _).
  assert (HP : well_referenced P) by apply (Hasm [row_alice; row_group1]).
  assert (HN : well_referenced N)
    by apply (Hasm [row_other; row_group2; row_alice]).
  split; [exact HP|]. split; [exact HN|].
  apply (Hmerge P N HP HN).
Defined.

(** C7 as stated fails after a merge: two assemblies number their only
    contact 1; after the merge both messages reference contact 1, whose
    [messageCount] is still 1. *)
Lemma cmd_update_counts_stale :
  let P := sample_extract [row_alice] in
  let N := sample_extract [row_other] in
  List.map Message.contactId (messages (sample_update P N)) = [1; 1]%nat
  /\ id_counts (contacts (sample_update P N)) = [(1, 1)]%nat
  /\ ~ counts_match (sample_update P N).
Proof.
  intros P N.
  assert (Hm : List.map Message.contactId (messages (sample_update P N))
               = [1; 1]%nat) by (vm_compute; reflexivity).
  assert (Hc : id_counts (contacts (sample_update P N)) = [(1, 1)]%nat)
    by (vm_compute; reflexivity).
  split; [exact Hm|]. split; [exact Hc|].
  unfold counts_match, count_refs. intros Hall.
  destruct (contacts (sample_update P N)) as [|c [|c' l]]; try discriminate.
  destruct (messages (sample_update P N)) as [|m1 [|m2 [|m3 l]]];
    try discriminate.
  injection Hc as Hid Hcount. injection Hm as Hm1 Hm2.
  inversion Hall as [|? ? Hhead _]; subst.
  simpl in Hhead. rewrite Hid, Hm1, Hm2, Hcount in Hhead.
  simpl in Hhead. discriminate.
Qed.

(** * Further properties of the code *)

(** ** Normalising twice *)

Lemma strip_non_digits_fixed (s : string) :
  all_chars is_digit s = true -> strip_non_digits s = s.
Proof.
  induction s as [|c r IH]; simpl; [reflexivity|].
  intros H. apply andb_prop in H as [Hc Hr]. rewrite Hc, IH by exact Hr.
  reflexivity.
Qed.

Lemma strip_non_digits_idem (s : string) :
  strip_non_digits (strip_non_digits s) = strip_non_digits s.
Proof. apply strip_non_digits_fixed, strip_non_digits_all_digits. Qed.

Lemma cleaned_digits_all_digits (s : string) :
  all_chars is_digit (cleaned_digits s) = true.
Proof.
  unfold cleaned_digits.
  destruct (String.length (strip_non_digits s) =? 10)%nat;
    [simpl|]; apply strip_non_digits_all_digits.
Qed.

Lemma cleaned_digits_length (s : string) :
  String.length (cleaned_digits s) <> 10%nat.
Proof.
  unfold cleaned_digits.
  destruct (Nat.eqb_spec (String.length (strip_non_digits s)) 10) as [E|E];
    [|exact E].
  change (S (String.length (strip_non_digits s)) <> 10%nat). lia.
Qed.

Lemma cleaned_digits_idem (s : string) :
  cleaned_digits (cleaned_digits s) = cleaned_digits s.
Proof.
  unfold cleaned_digits at 1.
  rewrite (strip_non_digits_fixed _ (cleaned_digits_all_digits s)).
  destruct (Nat.eqb_spec (String.length (cleaned_digits s)) 10) as [E|E];
    [|reflexivity].
  exfalso. exact (cleaned_digits_length s E).
Qed.

Lemma clean_phone_number_digits (phone : string) :
  clean_phone_number phone
  = if truthy phone
    then if truthy (cleaned_digits phone)
         then "+" +:+ cleaned_digits phone else phone
    else "".
Proof.
  unfold clean_phone_number, cleaned_digits.
  destruct (truthy phone); [|reflexivity]. cbn [negb].
  destruct (String.length (strip_non_digits phone) =? 10)%nat;
    [reflexivity|].
  destruct ((String.length (strip_non_digits phone) =? 11)%nat
            && startswith (strip_non_digits phone) "1"); reflexivity.
Qed.

(** Both normalisers are idempotent: applied to their own output they return
    it unchanged.  The output of the normaliser of [save_contact_mappings.py]
    consists of digits only and never has exactly ten of them. *)
Theorem clean_phone_number_idempotent (phone : string) :
  SaveContactMappings.clean_phone_number
    (SaveContactMappings.clean_phone_number phone)
  = SaveContactMappings.clean_phone_number phone
  /\ clean_phone_number (clean_phone_number phone) = clean_phone_number phone
  /\ all_chars is_digit (SaveContactMappings.clean_phone_number phone) = true
  /\ String.length (SaveContactMappings.clean_phone_number phone) <> 10%nat.
Proof.
  rewrite !scm_clean_phone_number_digits.
  split; [apply cleaned_digits_idem|].
  split;
    [|split; [apply cleaned_digits_all_digits|apply cleaned_digits_length]].
  rewrite (clean_phone_number_digits phone).
  destruct (truthy phone) eqn:Hp; [|reflexivity].
  destruct (truthy (cleaned_digits phone)) eqn:Hd.
  - rewrite clean_phone_number_digits. cbn [truthy append].
    assert (Hplus : cleaned_digits ("+" +:+ cleaned_digits phone)
                    = cleaned_digits phone).
    { change (cleaned_digits ("+" +:+ cleaned_digits phone))
        with (cleaned_digits (cleaned_digits phone)).
      apply cleaned_digits_idem. }
    cbn [append] in Hplus. rewrite Hplus, Hd. reflexivity.
  - rewrite clean_phone_number_digits, Hp, Hd. reflexivity.
Qed.

(** ** Running the update again *)

Lemma new_messages_after_update
  (iso_hour : string -> option nat) (oracle : string -> option string)
  (P N : Dataset) :
  new_messages (cmd_update iso_hour oracle P N) N = [].
Proof.
  unfold new_messages at 1. apply filter_nil_all_false. intros m Hm.
  apply bool_decide_eq_false. intros Hnot. apply Hnot. clear Hnot.
  apply elem_of_id_set. rewrite cmd_update_messages_eq, List.map_app.
  apply in_or_app.
  destruct (in_dec Z.eq_dec (Message.id m)
              (List.map Message.id (messages P))) as [Hin|Hnin];
    [right; exact Hin|left].
  apply in_map. apply new_messages_in. split; assumption.
Qed.

(** Updating twice with the same newly extracted data gives the result of
    updating once: the second run finds every id present and leaves the
    dataset as it is. *)
Theorem cmd_update_rerun
  (iso_hour : string -> option nat) (oracle : string -> option string)
  (P N : Dataset) :
  cmd_update iso_hour oracle (cmd_update iso_hour oracle P N) N
  = cmd_update iso_hour oracle P N.
Proof. apply cmd_update_no_new, new_messages_after_update. Qed.

(** ** Message ids across an update *)

Lemma NoDup_map_filter_ids (f : Message.t -> bool) (l : list Message.t) :
  List.NoDup (List.map Message.id l) ->
  List.NoDup (List.map Message.id (List.filter f l)).
Proof. apply NoDup_map_filter. Qed.

(** When the stored messages have pairwise distinct ids and so have the newly
    extracted ones, the messages after the update have pairwise distinct ids;
    and whenever a message of the result carries the id of a stored message,
    it is a stored message, so that of two records with one id the stored one
    is kept. *)
Theorem cmd_update_distinct_ids
  (iso_hour : string -> option nat) (oracle : string -> option string)
  (P N : Dataset) :
  List.NoDup (List.map Message.id (messages P)) ->
  List.NoDup (List.map Message.id (messages N)) ->
  List.NoDup
    (List.map Message.id (messages (cmd_update iso_hour oracle P N)))
  /\ forall m,
      In m (messages (cmd_update iso_hour oracle P N)) ->
      In (Message.id m) (List.map Message.id (messages P)) ->
      In m (messages P).
Proof.
  intros HP HN. rewrite cmd_update_messages_eq. split.
  - rewrite List.map_app. apply List.NoDup_app; [|exact HP|].
    + unfold new_messages. apply NoDup_map_filter_ids. exact HN.
    + intros a Ha Hb. apply in_map_iff in Ha as (m & Hm & Hin).
      apply new_messages_in in Hin as [_ Hnot]. apply Hnot.
      rewrite Hm. exact Hb.
  - intros m Hm Hid. apply in_app_or in Hm as [Hnew|Hold]; [|exact Hold].
    apply new_messages_in in Hnew as [_ Hnot]. contradiction.
Qed.

Lemma cmd_update_distinct_ids_witness :
  let P := sample_extract [row_alice; row_group1] in
  let N := sample_extract [row_other; row_group1; row_group2] in
  List.NoDup (List.map Message.id (messages P))
  /\ List.NoDup (List.map Message.id (messages N))
  /\ List.NoDup (List.map Message.id (messages (sample_update P N)))
  /\ List.map Message.id (messages (sample_update P N))
     = [102; 104; 101; 103]%Z.
Proof.
  intros P N.
  assert (HP : List.NoDup (List.map Message.id (messages P))).
  { vm_compute. repeat constructor; simpl; intuition discriminate. }
  assert (HN : List.NoDup (List.map Message.id (messages N))).
  { vm_compute. repeat constructor; simpl; intuition discriminate. }
  split; [exact HP|]. split; [exact HN|].
  split; [|vm_compute; reflexivity].
  apply (cmd_update_distinct_ids simple_iso_hour no_oracle P N HP HN).
Defined.

(** ** Images across an update *)

(** An update keeps the stored images.  When it adds at least one message,
    the recomputed statistics carry no [totalImages] entry, whatever the
    stored statistics said. *)
Theorem cmd_update_images
  (iso_hour : string -> option nat) (oracle : string -> option string)
  (P N : Dataset) :
  images (cmd_update iso_hour oracle P N) = images P
  /\ (new_messages P N <> [] ->
      totalImages (statistics (cmd_update iso_hour oracle P N)) = None).
Proof.
  split.
  - unfold cmd_update. destruct (messages N); [reflexivity|].
    destruct (new_messages P N); reflexivity.
  - intros Hnew. unfold cmd_update.
    destruct (messages N) eqn:EN.
    { exfalso. apply Hnew. unfold new_messages. rewrite EN. reflexivity. }
    destruct (new_messages P N); [contradiction|reflexivity].
Qed.

Lemma cmd_update_images_witness :
  let P := with_images (sample_extract [row_alice]) ["IMG_0001.jpg"] in
  let N := sample_extract [row_other] in
  new_messages P N <> []
  /\ totalImages (statistics P) = Some 1%nat
  /\ images (sample_update P N) = ["IMG_0001.jpg"]
  /\ totalImages (statistics (sample_update P N)) = None.
Proof.
  intros P N.
  assert (Hnew : new_messages P N <> []) by (vm_compute; discriminate).
  destruct (cmd_update_images simple_iso_hour no_oracle P N) as [Himg Htot].
  split; [exact Hnew|]. split; [reflexivity|].
  split; [unfold sample_update; rewrite Himg; reflexivity|exact (Htot Hnew)].
Defined.

(** ** Statistics *)

Lemma incr_at_length (h : nat) (l : list nat) :
  List.length (incr_at h l) = List.length l.
Proof.
  revert h. induction l as [|x r IH]; intros h; [destruct h; reflexivity|].
  destruct h; simpl; [reflexivity|]. rewrite IH. reflexivity.
Qed.

Lemma incr_at_sum (h : nat) (l : list nat) :
  list_sum (incr_at h l)
  = (list_sum l + (if (h <? List.length l)%nat then 1 else 0))%nat.
Proof.
  revert h. induction l as [|x r IH]; intros h; [destruct h; reflexivity|].
  destruct h; simpl; [lia|]. rewrite IH.
  change (S h <? S (List.length r))%nat with (h <? List.length r)%nat. lia.
Qed.

Section StatisticsFacts.

Variable iso_hour : string -> option nat.

Lemma hourly_fold (ms : list Message.t) (dist : list nat) :
  List.length dist = 24%nat ->
  let out :=
    fold_left
      (fun dist m =>
         match iso_hour (Message.date m) with
         | Some hour => incr_at hour dist
         | None => dist
         end)
      ms dist in
  List.length out = 24%nat
  /\ list_sum out
     = (list_sum dist + List.length (List.filter (counted iso_hour) ms))%nat.
Proof.
  revert dist. induction ms as [|m ms IH]; intros dist Hlen; simpl.
  { split; [exact Hlen|lia]. }
  unfold counted at 1.
  destruct (iso_hour (Message.date m)) as [hour|].
  - destruct (IH (incr_at hour dist)) as [H1 H2];
      [rewrite incr_at_length; exact Hlen|].
    split; [exact H1|]. rewrite H2, incr_at_sum, Hlen.
    destruct (hour <? 24)%nat; simpl; lia.
  - destruct (IH dist Hlen) as [H1 H2]. split; [exact H1|exact H2].
Qed.

End StatisticsFacts.

(** The statistics are consistent with the lists they are computed from:
    the total is the number of messages and splits into sent and received,
    the contact count is the length of the contact list, the hourly
    histogram always has 24 buckets, and its entries add up to the number of
    messages whose date parses to an hour below 24 (the others are skipped);
    no [totalImages] entry is produced. *)
Theorem calculate_statistics_counts
  (iso_hour : string -> option nat)
  (ms : list Message.t) (cs : list Contact.t) :
  let s := calculate_statistics iso_hour ms cs in
  totalMessages s = List.length ms
  /\ (messagesSent s + messagesReceived s)%nat = totalMessages s
  /\ messagesSent s = List.length (List.filter Message.isFromMe ms)
  /\ uniqueContacts s = List.length cs
  /\ List.length (hourlyDistribution s) = 24%nat
  /\ list_sum (hourlyDistribution s)
     = List.length (List.filter (counted iso_hour) ms)
  /\ totalImages s = None.
Proof.
  cbn zeta. unfold calculate_statistics.
  cbn [totalMessages messagesSent messagesReceived uniqueContacts
       hourlyDistribution totalImages].
  split; [reflexivity|]. split.
  { pose proof (List.filter_length_le Message.isFromMe ms). lia. }
  split; [reflexivity|]. split; [reflexivity|].
  destruct (hourly_fold iso_hour ms (repeat 0%nat 24) eq_refl) as [H1 H2].
  split; [exact H1|]. split; [|reflexivity].
  unfold hourly. rewrite H2. reflexivity.
Qed.

(** ** The date range *)

Lemma ascii_compare_lt_trans (a b c : ascii) :
  Ascii.compare a b = Lt -> Ascii.compare b c = Lt -> Ascii.compare a c = Lt.
Proof.
  unfold Ascii.compare. rewrite !N.compare_lt_iff. lia.
Qed.

Lemma ascii_compare_refl (a : ascii) : Ascii.compare a a = Eq.
Proof. unfold Ascii.compare. apply N.compare_refl. Qed.

Lemma string_compare_refl (s : string) : String.compare s s = Eq.
Proof.
  induction s as [|c r IH]; simpl; [reflexivity|].
  rewrite ascii_compare_refl. exact IH.
Qed.

Lemma string_compare_lt_trans (a b c : string) :
  String.compare a b = Lt -> String.compare b c = Lt ->
  String.compare a c = Lt.
Proof.
  revert b c. induction a as [|x a IH]; intros [|y b] [|z c]; simpl;
    try discriminate; try reflexivity.
  destruct (Ascii.compare x y) eqn:Exy; try discriminate;
    destruct (Ascii.compare y z) eqn:Eyz; try discriminate; intros Hab Hbc.
  - apply Ascii.compare_eq_iff in Exy, Eyz. subst.
    rewrite ascii_compare_refl. eapply IH; eassumption.
  - apply Ascii.compare_eq_iff in Exy. subst. rewrite Eyz. reflexivity.
  - apply Ascii.compare_eq_iff in Eyz. subst. rewrite Exy. reflexivity.
  - rewrite (ascii_compare_lt_trans _ _ _ Exy Eyz). reflexivity.
Qed.

Lemma string_leb_cases (a b : string) :
  String.leb a b = true <-> String.compare a b = Lt \/ a = b.
Proof.
  unfold String.leb. split.
  - destruct (String.compare a b) eqn:E; intros H;
      [right; apply String.compare_eq_iff; exact E|left; reflexivity
      |discriminate].
  - intros [H| ->]; [rewrite H; reflexivity|].
    rewrite string_compare_refl. reflexivity.
Qed.

Lemma string_leb_refl (a : string) : String.leb a a = true.
Proof. apply string_leb_cases. right. reflexivity. Qed.

Lemma string_leb_trans (a b c : string) :
  String.leb a b = true -> String.leb b c = true -> String.leb a c = true.
Proof.
  rewrite !string_leb_cases. intros [Hab| ->] [Hbc| ->]; auto.
  left. eapply string_compare_lt_trans; eassumption.
Qed.

Lemma string_ltb_leb (a b : string) :
  String.ltb a b = true -> String.leb a b = true.
Proof.
  unfold String.ltb, String.leb. destruct (String.compare a b); auto.
Qed.

Lemma string_not_ltb_leb (a b : string) :
  String.ltb a b = false -> String.leb b a = true.
Proof.
  unfold String.ltb, String.leb. rewrite (String.compare_antisym b a).
  destruct (String.compare a b); simpl; auto; discriminate.
Qed.

Lemma min_str_spec (d : string) (l : list string) :
  In (min_str d l) (d :: l)
  /\ Forall (fun x => String.leb (min_str d l) x = true) (d :: l).
Proof.
  revert d. induction l as [|x r IH]; intros d; simpl.
  { split; [left; reflexivity|]. constructor; [apply string_leb_refl|constructor]. }
  destruct (IH (if String.ltb x d then x else d)) as [Hin Hall].
  inversion Hall as [|? ? Hhead Hrest]; subst.
  split.
  - destruct Hin as [Hin|Hin]; [|right; right; exact Hin].
    rewrite <- Hin. destruct (String.ltb x d); [right; left|left]; reflexivity.
  - destruct (String.ltb x d) eqn:E.
    + constructor; [|constructor; assumption].
      eapply string_leb_trans; [exact Hhead|apply string_ltb_leb, E].
    + constructor; [exact Hhead|]. constructor; [|exact Hrest].
      eapply string_leb_trans; [exact Hhead|apply string_not_ltb_leb, E].
Qed.

Lemma max_str_spec (d : string) (l : list string) :
  In (max_str d l) (d :: l)
  /\ Forall (fun x => String.leb x (max_str d l) = true) (d :: l).
Proof.
  revert d. induction l as [|x r IH]; intros d; simpl.
  { split; [left; reflexivity|]. constructor; [apply string_leb_refl|constructor]. }
  destruct (IH (if String.ltb d x then x else d)) as [Hin Hall].
  inversion Hall as [|? ? Hhead Hrest]; subst.
  split.
  - destruct Hin as [Hin|Hin]; [|right; right; exact Hin].
    rewrite <- Hin. destruct (String.ltb d x); [right; left|left]; reflexivity.
  - destruct (String.ltb d x) eqn:E.
    + constructor; [|constructor; assumption].
      eapply string_leb_trans; [apply string_ltb_leb, E|exact Hhead].
    + constructor; [exact Hhead|]. constructor; [|exact Hrest].
      eapply string_leb_trans; [apply string_not_ltb_leb, E|exact Hhead].
Qed.

(** The date range is taken over the non-empty dates of the messages: with
    none, both ends are the empty string; otherwise both ends are dates of
    messages and every non-empty date lies between them in the order of
    strings by code points. *)
Theorem calculate_statistics_date_range
  (iso_hour : string -> option nat)
  (ms : list Message.t) (cs : list Contact.t) :
  let dates := List.filter truthy (List.map Message.date ms) in
  let range := dateRange (calculate_statistics iso_hour ms cs) in
  (dates = [] -> range = ("", ""))
  /\ (dates <> [] ->
      In (fst range) dates /\ In (snd range) dates
      /\ Forall
           (fun d => String.leb (fst range) d = true
                     /\ String.leb d (snd range) = true)
           dates).
Proof.
  cbn zeta. unfold calculate_statistics. cbn [dateRange].
  destruct (List.filter truthy (List.map Message.date ms)) as [|d r].
  { split; [reflexivity|congruence]. }
  split; [discriminate|]. intros _. cbn [fst snd].
  destruct (min_str_spec d r) as [Hmin Hlo].
  destruct (max_str_spec d r) as [Hmax Hhi].
  split; [exact Hmin|]. split; [exact Hmax|].
  rewrite List.Forall_forall in Hlo, Hhi. apply List.Forall_forall.
  intros x Hx. split; [apply Hlo|apply Hhi]; exact Hx.
Qed.

Lemma calculate_statistics_date_range_witness :
  let ms := messages (sample_extract [row_other; row_alice; row_group1]) in
  List.filter truthy (List.map Message.date ms) <> []
  /\ dateRange (calculate_statistics simple_iso_hour ms [])
     = ("2024-03-01 09:15:00", "2024-03-03 07:00:00").
Proof.
  intros ms.
  assert (Hne : List.filter truthy (List.map Message.date ms) <> [])
    by (vm_compute; discriminate).
  split; [exact Hne|].
  destruct (calculate_statistics_date_range simple_iso_hour ms [])
    as [_ Hrange].
  destruct (Hrange Hne) as (Hlo & Hhi & _).
  vm_compute in Hlo, Hhi. vm_compute.
  destruct Hlo as [Hlo|[Hlo|[Hlo|[]]]]; destruct Hhi as [Hhi|[Hhi|[Hhi|[]]]];
    reflexivity.
Defined.

(** ** Rows and messages *)

Lemma message_content_nonempty (isalnum : Z -> bool) (r : Row) (t : text) :
  message_content isalnum r = Some t -> t <> [].
Proof.
  unfold message_content.
  destruct (message_text r) as [[|c t']|].
  - destruct (attributed_body r) as [[|b bs]|]; try discriminate.
    destruct (decode_attributed_body isalnum (Some (b :: bs))) as [[|c t']|];
      try discriminate.
    intros H. injection H as <-. discriminate.
  - intros H. injection H as <-. discriminate.
  - destruct (attributed_body r) as [[|b bs]|]; try discriminate.
    destruct (decode_attributed_body isalnum (Some (b :: bs))) as [[|c t']|];
      try discriminate.
    intros H. injection H as <-. discriminate.
Qed.

Lemma dict_get_incr_other (d : contacts_dict) (k k' : string) :
  k' <> k -> dict_get (dict_incr d k) k' = dict_get d k'.
Proof.
  intros Hne. induction d as [|[k0 c0] d IH]; simpl; [reflexivity|].
  destruct (String.eqb_spec k0 k) as [E|E]; simpl.
  - destruct (String.eqb_spec k0 k') as [E'|E']; [congruence|reflexivity].
  - destruct (String.eqb k0 k'); [reflexivity|exact IH].
Qed.

Lemma dict_get_app_l (d : contacts_dict) (e : string * Contact.t)
  (k : string) (c : Contact.t) :
  dict_get d k = Some c -> dict_get (d ++ [e])%list k = Some c.
Proof.
  induction d as [|[k0 c0] d IH]; simpl; [discriminate|].
  destruct (String.eqb k0 k); [auto|exact IH].
Qed.

Lemma dict_get_app_last (d : contacts_dict) (k : string) (c : Contact.t) :
  dict_get d k = None -> dict_get (d ++ [(k, c)])%list k = Some c.
Proof.
  induction d as [|[k0 c0] d IH]; simpl.
  - rewrite String.eqb_refl. reflexivity.
  - destruct (String.eqb k0 k); [discriminate|exact IH].
Qed.

Section RowsAndMessages.

Variable isalnum : Z -> bool.
Variable mappings : Mappings.

Lemma process_row_keeps_binding (st : AsmState) (r : Row) (k : string)
  (c : Contact.t) :
  dict_get (asm_contacts st) k = Some c ->
  exists c',
    dict_get (asm_contacts (process_row isalnum mappings st r)) k = Some c'
    /\ Contact.id c' = Contact.id c.
Proof.
  intros Hk.
  destruct (message_content isalnum r) as [content|] eqn:Hc;
    [|rewrite process_row_skip by exact Hc; eauto].
  destruct (dict_get (asm_contacts st) (contact_key_of r)) as [c0|] eqn:Hget.
  - rewrite (process_row_known _ _ _ _ _ _ Hc Hget). cbn [asm_contacts].
    destruct (String.eqb_spec k (contact_key_of r)) as [->|Hne].
    + rewrite (dict_get_incr _ _ _ Hget). rewrite Hget in Hk.
      injection Hk as <-. eauto.
    + rewrite dict_get_incr_other by exact Hne. eauto.
  - rewrite (process_row_fresh _ _ _ _ _ Hc Hget). cbn [asm_contacts].
    exists c. split; [apply dict_get_app_l; exact Hk|reflexivity].
Qed.

Lemma fold_keeps_binding (rows : list Row) (st : AsmState) (k : string)
  (c : Contact.t) :
  dict_get (asm_contacts st) k = Some c ->
  exists c',
    dict_get (asm_contacts (fold_left (process_row isalnum mappings) rows st))
             k = Some c'
    /\ Contact.id c' = Contact.id c.
Proof.
  revert st c. induction rows as [|r rows IH]; intros st c Hk; [eauto|].
  simpl. destruct (process_row_keeps_binding st r k c Hk) as (c1 & H1 & Hid1).
  destruct (IH _ _ H1) as (c2 & H2 & Hid2).
  exists c2. split; [exact H2|congruence].
Qed.

Lemma process_row_message (st : AsmState) (r : Row) (content : text) :
  message_content isalnum r = Some content ->
  exists m,
    asm_messages (process_row isalnum mappings st r)
    = (asm_messages st ++ [m])%list
    /\ message_of_row isalnum r m
    /\ keyed_to (asm_contacts (process_row isalnum mappings st r)) r m.
Proof.
  intros Hc.
  destruct (dict_get (asm_contacts st) (contact_key_of r)) as [c0|] eqn:Hget.
  - rewrite (process_row_known _ _ _ _ _ _ Hc Hget).
    cbn [asm_contacts asm_messages]. eexists. split; [reflexivity|].
    split; [repeat split; exact Hc|].
    eexists. split; [apply (dict_get_incr _ _ _ Hget)|reflexivity].
  - rewrite (process_row_fresh _ _ _ _ _ Hc Hget).
    cbn [asm_contacts asm_messages]. eexists. split; [reflexivity|].
    split; [repeat split; exact Hc|].
    eexists. split; [apply dict_get_app_last; exact Hget|].
    cbn [Contact.id Contact.with_messageCount Message.contactId].
    apply new_contact_id.
Qed.

Lemma fold_messages (rows : list Row) (st : AsmState) :
  let final := fold_left (process_row isalnum mappings) rows st in
  exists new,
    asm_messages final = (asm_messages st ++ new)%list
    /\ Forall2
         (fun r m => message_of_row isalnum r m
                     /\ keyed_to (asm_contacts final) r m)
         (List.filter (has_content isalnum) rows) new.
Proof.
  revert st. induction rows as [|r rows IH]; intros st; cbn zeta.
  { exists []. split; [symmetry; apply List.app_nil_r|constructor]. }
  cbn [fold_left List.filter]. unfold has_content at 1.
  destruct (IH (process_row isalnum mappings st r)) as (new & Hnew & Hall).
  cbn zeta in Hnew, Hall.
  destruct (message_content isalnum r) as [content|] eqn:Hc.
  - destruct (process_row_message st r content Hc) as (m & Hm & Hrow & Hkey).
    exists (m :: new). split.
    + rewrite Hnew, Hm, <- List.app_assoc. reflexivity.
    + constructor; [|exact Hall]. split; [exact Hrow|].
      destruct Hkey as (c & Hget & Hid).
      destruct (fold_keeps_binding rows _ _ _ Hget) as (c' & Hget' & Hid').
      exists c'. split; [exact Hget'|congruence].
  - rewrite process_row_skip in * by exact Hc. exists new. auto.
Qed.

End RowsAndMessages.

Lemma Forall2_at {A B : Type} (R : A -> B -> Prop) (l1 : list A)
  (l2 : list B) (i : nat) (a : A) (b : B) :
  Forall2 R l1 l2 -> nth_error l1 i = Some a -> nth_error l2 i = Some b ->
  R a b.
Proof.
  intros H. revert i. induction H as [|x y l1 l2 Hxy _ IH]; intros i Ha Hb.
  - destruct i; discriminate.
  - destruct i as [|i]; simpl in Ha, Hb.
    + injection Ha as <-. injection Hb as <-. exact Hxy.
    + eapply IH; eassumption.
Qed.

Lemma dict_get_in_pair (d : contacts_dict) (k : string) (c : Contact.t) :
  dict_get d k = Some c -> In (k, c) d.
Proof.
  induction d as [|[k0 c0] d IH]; simpl; [discriminate|].
  destruct (String.eqb_spec k0 k) as [->|_].
  - intros H. injection H as <-. left. reflexivity.
  - intros H. right. apply IH. exact H.
Qed.

Lemma NoDup_map_injective {A B : Type} (f : A -> B) (l : list A) (x y : A) :
  List.NoDup (List.map f l) -> In x l -> In y l -> f x = f y -> x = y.
Proof.
  induction l as [|a l IH]; simpl; intros Hnd Hx Hy Hf; [contradiction|].
  inversion Hnd as [|? ? Hnotin Hnd']; subst.
  destruct Hx as [->|Hx], Hy as [->|Hy]; auto.
  - exfalso. apply Hnotin. rewrite Hf. apply in_map. exact Hy.
  - exfalso. apply Hnotin. rewrite <- Hf. apply in_map. exact Hx.
Qed.

Lemma asm_inv_key_injective (st : AsmState) (k1 k2 : string)
  (c1 c2 : Contact.t) :
  asm_inv st ->
  dict_get (asm_contacts st) k1 = Some c1 ->
  dict_get (asm_contacts st) k2 = Some c2 ->
  Contact.id c1 = Contact.id c2 -> k1 = k2.
Proof.
  intros (Hids & _) H1 H2 Hid.
  apply dict_get_in_pair in H1, H2.
  assert (Hnd : List.NoDup
                  (List.map (fun e : string * Contact.t => Contact.id (snd e))
                            (asm_contacts st))).
  { rewrite <- List.map_map. cbn zeta in Hids. rewrite Hids.
    apply seq_NoDup. }
  assert (E := NoDup_map_injective _ _ _ _ Hnd H1 H2 Hid).
  congruence.
Qed.

(** The messages of an assembled dataset are, in order, those of the rows
    that have content (the plain text, or else the decoded blob): each has
    the id, date and direction of its row and the row's content.  Rows
    without content leave no message, and no message has empty content. *)
Theorem extract_messages_rows
  (isalnum : Z -> bool) (iso_hour : string -> option nat)
  (mappings : Mappings) (rows : list Row) :
  let d := extract_messages isalnum iso_hour mappings rows in
  Forall2 (message_of_row isalnum)
          (List.filter (has_content isalnum) rows) (messages d)
  /\ Forall (fun m => Message.content m <> []) (messages d)
  /\ (List.length (messages d) <= List.length rows)%nat.
Proof.
  cbn zeta. unfold extract_messages. cbn [messages]. unfold process_rows.
  destruct (fold_messages isalnum mappings rows initial_state)
    as (new & Hnew & Hall).
  cbn zeta in Hnew, Hall. cbn [initial_state asm_messages List.app] in Hnew.
  rewrite Hnew.
  assert (Hrows : Forall2 (message_of_row isalnum)
                    (List.filter (has_content isalnum) rows) new).
  { eapply List.Forall2_impl; [|exact Hall]. intros r m [H _]. exact H. }
  split; [exact Hrows|]. split.
  - clear Hall Hnew. induction Hrows as [|r m l1 l2 Hrm _ IH]; constructor;
      [|exact IH].
    destruct Hrm as (_ & Hc & _).
    apply (message_content_nonempty _ _ _ Hc).
  - rewrite <- (List.Forall2_length Hrows).
    apply List.filter_length_le.
Qed.

(** Two messages of an assembled dataset reference the same contact exactly
    when their rows have the same contact key (the group thread identifier
    for a group thread, else the sender, else the thread, else a key made
    from the message id).  In particular all rows of one group thread are
    gathered under one contact, whoever the sender is. *)
Theorem extract_messages_same_key
  (isalnum : Z -> bool) (iso_hour : string -> option nat)
  (mappings : Mappings) (rows : list Row)
  (i j : nat) (r1 r2 : Row) (m1 m2 : Message.t) :
  let d := extract_messages isalnum iso_hour mappings rows in
  let content_rows := List.filter (has_content isalnum) rows in
  nth_error content_rows i = Some r1 -> nth_error (messages d) i = Some m1 ->
  nth_error content_rows j = Some r2 -> nth_error (messages d) j = Some m2 ->
  (Message.contactId m1 = Message.contactId m2
   <-> contact_key_of r1 = contact_key_of r2)
  /\ (is_group (chat_identifier r1) = true ->
      chat_identifier r2 = chat_identifier r1 ->
      Message.contactId m1 = Message.contactId m2).
Proof.
  cbn zeta. unfold extract_messages. cbn [messages]. unfold process_rows.
  destruct (fold_messages isalnum mappings rows initial_state)
    as (new & Hnew & Hall).
  cbn zeta in Hnew, Hall. cbn [initial_state asm_messages List.app] in Hnew.
  rewrite Hnew. intros Hr1 Hm1 Hr2 Hm2.
  destruct (Forall2_at _ _ _ _ _ _ Hall Hr1 Hm1) as (_ & c1 & Hg1 & Hid1).
  destruct (Forall2_at _ _ _ _ _ _ Hall Hr2 Hm2) as (_ & c2 & Hg2 & Hid2).
  assert (Hiff : Message.contactId m1 = Message.contactId m2
                 <-> contact_key_of r1 = contact_key_of r2).
  { split.
    - intros Heq.
      eapply (asm_inv_key_injective _ _ _ c1 c2);
        [apply (fold_process_row_inv isalnum mappings rows initial_state)
        |exact Hg1|exact Hg2|congruence].
      unfold asm_inv, initial_state. simpl. repeat split; constructor.
    - intros Hk. rewrite Hk in Hg1. congruence. }
  split; [exact Hiff|].
  intros Hgrp Hchat. apply Hiff. unfold contact_key_of.
  rewrite Hchat, Hgrp. reflexivity.
Qed.

Lemma extract_messages_same_key_witness :
  let d := sample_extract [row_group1; row_alice; row_group2] in
  nth_error
    (List.filter (has_content ascii_isalnum)
                 [row_group1; row_alice; row_group2]) 0
  = Some row_group1
  /\ nth_error (messages d) 0
     = Some (Message.mk 103 1 [121; 111]%Z "2024-03-03 07:00:00" false)
  /\ nth_error
       (List.filter (has_content ascii_isalnum)
                    [row_group1; row_alice; row_group2]) 2
     = Some row_group2
  /\ nth_error (messages d) 2
     = Some (Message.mk 104 1 [104; 101; 121]%Z "2024-03-03 07:05:00" true)
  /\ contact_key_of row_group1 = contact_key_of row_group2.
Proof.
  intros d.
  assert (H1 : nth_error
                 (List.filter (has_content ascii_isalnum)
                              [row_group1; row_alice; row_group2]) 0
               = Some row_group1) by reflexivity.
  assert (H2 : nth_error (messages d) 0
               = Some (Message.mk 103 1 [121; 111]%Z
                                  "2024-03-03 07:00:00" false))
    by (vm_compute; reflexivity).
  assert (H3 : nth_error
                 (List.filter (has_content ascii_isalnum)
                              [row_group1; row_alice; row_group2]) 2
               = Some row_group2) by reflexivity.
  assert (H4 : nth_error (messages d) 2
               = Some (Message.mk 104 1 [104; 101; 121]%Z
                                  "2024-03-03 07:05:00" true))
    by (vm_compute; reflexivity).
  repeat (split; [assumption|]).
  destruct (extract_messages_same_key ascii_isalnum simple_iso_hour
              sample_store [row_group1; row_alice; row_group2]
              0 2 _ _ _ _ H1 H2 H3 H4) as [Hiff _].
  apply Hiff. reflexivity.
Defined.

(** ** Names and counts of assembled contacts *)

Lemma truthy_py_str (o : option string) :
  truthy_opt o = true -> truthy (py_str o) = true.
Proof. destruct o; [auto|discriminate]. Qed.

Lemma is_group_truthy (o : option string) :
  is_group o = true -> truthy (py_str o) = true.
Proof.
  destruct o as [c|]; [|discriminate]. simpl.
  intros H. apply andb_prop in H as [H _]. exact H.
Qed.

Lemma contact_key_truthy (r : Row) : truthy (contact_key_of r) = true.
Proof.
  unfold contact_key_of.
  destruct (is_group (chat_identifier r)) eqn:Hg;
    [apply is_group_truthy, Hg|].
  destruct (truthy_opt (contact_identifier r)) eqn:Hc;
    [apply truthy_py_str, Hc|].
  destruct (truthy_opt (chat_identifier r)) eqn:Hch;
    [apply truthy_py_str, Hch|reflexivity].
Qed.

Lemma clean_phone_number_truthy (phone : string) :
  truthy phone = true -> truthy (clean_phone_number phone) = true.
Proof.
  intros H. rewrite clean_phone_number_digits, H.
  destruct (truthy (cleaned_digits phone)); [reflexivity|exact H].
Qed.

Lemma new_contact_name_truthy (mappings : Mappings) (r : Row) (n : nat) :
  truthy (Contact.name (new_contact mappings r n)) = true.
Proof.
  pose proof (contact_key_truthy r) as Hkey.
  unfold new_contact. destruct (is_group (chat_identifier r)) eqn:Hg.
  - destruct (get_group_chat_info _ mappings) as [mdn parts].
    destruct (truthy_opt (chat_display_name r)) eqn:Hd;
      [apply truthy_py_str, Hd|].
    destruct (truthy_opt mdn); [apply is_group_truthy, Hg|exact Hkey].
  - cbn [Contact.name].
    destruct (truthy_opt (resolve_contact_name_opt _ mappings)) eqn:Hr;
      [apply truthy_py_str, Hr|].
    destruct (truthy_opt (chat_display_name r)) eqn:Hd;
      [apply truthy_py_str, Hd|].
    destruct (truthy_opt (contact_identifier r)) eqn:Hc; [|exact Hkey].
    destruct (looks_like_phone _);
      [apply clean_phone_number_truthy|]; apply truthy_py_str, Hc.
Qed.

Lemma dict_incr_named (d : contacts_dict) (k : string) :
  Forall named_and_used (List.map snd d) ->
  Forall named_and_used (List.map snd (dict_incr d k)).
Proof.
  induction d as [|[k0 c0] d IH]; simpl; intros H; [constructor|].
  inversion H as [|? ? [Hn Hc] Hrest]; subst.
  destruct (String.eqb k0 k); simpl.
  - constructor; [|exact Hrest]. split; [exact Hn|simpl; lia].
  - constructor; [split; assumption|apply IH; exact Hrest].
Qed.

Lemma dict_incr_sum (d : contacts_dict) (k : string) (c : Contact.t) :
  dict_get d k = Some c ->
  list_sum (List.map Contact.messageCount (List.map snd (dict_incr d k)))
  = S (list_sum (List.map Contact.messageCount (List.map snd d))).
Proof.
  induction d as [|[k0 c0] d IH]; simpl; [discriminate|].
  destruct (String.eqb k0 k); simpl; [reflexivity|].
  intros H. rewrite (IH H). lia.
Qed.

Lemma list_sum_perm (l l' : list nat) :
  Permutation l l' -> list_sum l = list_sum l'.
Proof.
  induction 1; simpl; lia.
Qed.

Lemma list_sum_at_least (l : list nat) :
  Forall (fun n => (1 <= n)%nat) l -> (List.length l <= list_sum l)%nat.
Proof.
  induction 1; simpl; lia.
Qed.

Section Totals.

Variable isalnum : Z -> bool.
Variable mappings : Mappings.

Lemma process_row_totals (st : AsmState) (r : Row) :
  asm_totals st -> asm_totals (process_row isalnum mappings st r).
Proof.
  intros [Hnamed Hsum].
  destruct (message_content isalnum r) as [content|] eqn:Hc;
    [|rewrite process_row_skip by exact Hc; split; assumption].
  destruct (dict_get (asm_contacts st) (contact_key_of r)) as [c0|] eqn:Hget.
  - rewrite (process_row_known _ _ _ _ _ _ Hc Hget). unfold asm_totals.
    cbn [asm_contacts asm_messages].
    split; [apply dict_incr_named; exact Hnamed|].
    rewrite (dict_incr_sum _ _ _ Hget), Hsum, List.length_app. simpl. lia.
  - rewrite (process_row_fresh _ _ _ _ _ Hc Hget). unfold asm_totals.
    cbn [asm_contacts asm_messages].
    rewrite !List.map_app, list_sum_app, List.length_app. cbn [List.map snd].
    split.
    + apply List.Forall_app. split; [exact Hnamed|].
      constructor; [|constructor]. split; [|simpl; lia].
      cbn [Contact.name Contact.with_messageCount].
      apply new_contact_name_truthy.
    + rewrite Hsum. simpl. lia.
Qed.

Lemma process_rows_totals (rows : list Row) :
  asm_totals (process_rows isalnum mappings rows).
Proof.
  unfold process_rows.
  assert (H : forall st, asm_totals st ->
                asm_totals (fold_left (process_row isalnum mappings) rows st)).
  { induction rows as [|r rs IH]; intros st Hst; [exact Hst|].
    simpl. apply IH, process_row_totals, Hst. }
  apply H. split; [constructor|reflexivity].
Qed.

End Totals.

(** In an assembled dataset every contact has a non-empty name (the chain
    of fallbacks always ends in a usable string) and at least one message;
    the message counts of the contacts add up to the number of messages, and
    there are at most as many contacts as messages. *)
Theorem extract_messages_contacts
  (isalnum : Z -> bool) (iso_hour : string -> option nat)
  (mappings : Mappings) (rows : list Row) :
  let d := extract_messages isalnum iso_hour mappings rows in
  Forall (fun c => Contact.name c <> ""
                   /\ (1 <= Contact.messageCount c)%nat)
         (contacts d)
  /\ list_sum (List.map Contact.messageCount (contacts d))
     = List.length (messages d)
  /\ (List.length (contacts d) <= List.length (messages d))%nat
  /\ uniqueContacts (statistics d) = List.length (contacts d).
Proof.
  cbn zeta. unfold extract_messages. cbn [contacts messages statistics].
  destruct (process_rows_totals isalnum mappings rows) as [Hnamed Hsum].
  set (cs := List.map snd (asm_contacts (process_rows isalnum mappings rows)))
    in *.
  assert (Hperm := sort_desc_perm cs).
  assert (Hnamed' : Forall named_and_used (sort_desc cs))
    by (eapply Permutation_Forall; [exact Hperm|exact Hnamed]).
  assert (Hsum' : list_sum (List.map Contact.messageCount (sort_desc cs))
                  = List.length
                      (asm_messages (process_rows isalnum mappings rows))).
  { rewrite <- Hsum. symmetry. apply list_sum_perm, Permutation_map, Hperm. }
  split.
  { eapply List.Forall_impl; [|exact Hnamed'].
    intros c [Hn Hc]. split; [|exact Hc].
    intros E. rewrite E in Hn. discriminate. }
  split; [exact Hsum'|]. split; [|reflexivity].
  rewrite <- Hsum', <- (List.length_map Contact.messageCount).
  apply list_sum_at_least. apply List.Forall_map.
  eapply List.Forall_impl; [|exact Hnamed']. intros c [_ Hc]. exact Hc.
Qed.

(** ** What the decoder returns *)

Lemma option_map_cons_some (x : Z) (o : option text) (t : text) :
  option_map (cons x) o = Some t -> exists t', o = Some t' /\ t = x :: t'.
Proof.
  destruct o as [t'|]; simpl; [|discriminate].
  intros H. injection H as <-. eauto.
Qed.

Lemma utf8_length_bounded (n : nat) (l : bytes) (t : text) :
  (List.length l <= n)%nat -> utf8 l = Some t ->
  (List.length t <= List.length l)%nat.
Proof.
  revert l t. induction n as [|n IH]; intros l t Hn.
  { destruct l; [|simpl in Hn; lia]. simpl. intros H. injection H as <-.
    simpl. lia. }
  destruct l as [|b1 r1]; [simpl; intros H; injection H as <-; simpl; lia|].
  simpl in Hn. cbn [utf8].
  destruct (in_range 0 127 b1).
  { intros H. apply option_map_cons_some in H as (t' & Ht' & ->).
    simpl. apply IH in Ht'; lia. }
  destruct r1 as [|b2 r2]; [discriminate|]. simpl in Hn.
  destruct (in_range 194 223 b1).
  { destruct (cont b2); [|discriminate].
    intros H. apply option_map_cons_some in H as (t' & Ht' & ->).
    simpl. apply IH in Ht'; lia. }
  destruct r2 as [|b3 r3]; [discriminate|]. simpl in Hn.
  destruct (in_range 224 239 b1).
  { match goal with |- context [if ?c then _ else None] => destruct c end;
      [|discriminate].
    intros H. apply option_map_cons_some in H as (t' & Ht' & ->).
    simpl. apply IH in Ht'; lia. }
  destruct r3 as [|b4 r4]; [discriminate|]. simpl in Hn.
  destruct (in_range 240 244 b1); [|discriminate].
  match goal with |- context [if ?c then _ else None] => destruct c end;
    [|discriminate].
  intros H. apply option_map_cons_some in H as (t' & Ht' & ->).
  simpl. apply IH in Ht'; lia.
Qed.

Lemma utf8_length (l : bytes) (t : text) :
  utf8 l = Some t -> (List.length t <= List.length l)%nat.
Proof. apply (utf8_length_bounded (List.length l)). lia. Qed.

Lemma slice_length (blob : bytes) (a b : nat) :
  (List.length (slice blob a b) <= b - a)%nat.
Proof. unfold slice. apply List.firstn_le_length. Qed.

Lemma sanitize_hygiene (c : text) :
  Forall kept (sanitize c) /\ trimmed (sanitize c)
  /\ (List.length (sanitize c) <= List.length c)%nat.
Proof.
  unfold sanitize.
  destruct (clean_control_spec c) as (rest & Hc & Hkept & _).
  destruct (strip_spec (clean_control c)) as (pre & post & Hs & _ & _ & Htrim).
  split.
  { rewrite Hs in Hkept. apply List.Forall_app in Hkept as [_ Hkept].
    apply List.Forall_app in Hkept as [Hkept _]. exact Hkept. }
  split; [exact Htrim|].
  apply (f_equal (@List.length Z)) in Hc, Hs.
  rewrite List.length_app in Hc. rewrite !List.length_app in Hs. lia.
Qed.

Lemma extract_text_bound (blob : bytes) (text_length : Z) (text_start : nat)
  (t : text) :
  extract_text blob text_length text_start = Ok (Some t) ->
  exists c,
    utf8 (slice blob text_start (text_start + Z.to_nat text_length)) = Some c
    /\ t = sanitize c /\ (text_length <= 10000)%Z.
Proof.
  unfold extract_text.
  destruct ((1 <=? text_length)%Z && (text_length <=? 10000)%Z
            && (text_start + Z.to_nat text_length <=? List.length blob)%nat)
    eqn:Hguard; [|discriminate].
  apply andb_prop in Hguard as [Hguard _].
  apply andb_prop in Hguard as [_ Hguard]. apply Z.leb_le in Hguard.
  intros H. apply except_unicode_decode_some in H as (c & Hc & Hk).
  exists c. split; [exact Hc|]. split; [|exact Hguard].
  destruct (0 <? List.length (sanitize c))%nat; [|discriminate].
  injection Hk as <-. reflexivity.
Qed.

Lemma try_pattern_bound (blob : bytes) (nsstring_pos : nat)
  (pl : bytes * nat) (t : text) :
  try_pattern blob nsstring_pos pl = Ok (Some t) ->
  exists c n,
    t = sanitize c /\ (List.length c <= n)%nat /\ (Z.of_nat n <= 10000)%Z.
Proof.
  destruct pl as [pattern off]. unfold try_pattern.
  destruct (find blob pattern nsstring_pos) as [pp|]; [|discriminate].
  match goal with |- context [(?a <? ?b)%nat] =>
    destruct (a <? b)%nat; [|discriminate] end.
  destruct (getitem blob (pp + List.length pattern + off)) as [lb|];
    [|discriminate].
  cbn [bind].
  destruct (length_field blob (pp + List.length pattern + off) lb)
    as [[[tl ts]|]|]; cbn [bind]; try discriminate.
  intros H. apply extract_text_bound in H as (c & Hc & Ht & Hle).
  exists c, (Z.to_nat tl). split; [exact Ht|].
  apply utf8_length in Hc.
  pose proof (slice_length blob ts (ts + Z.to_nat tl)). lia.
Qed.

Lemma scan_at_bound (isalnum : Z -> bool) (blob : bytes) (i : nat)
  (t : text) :
  scan_at isalnum blob i = Ok (Some t) ->
  exists c n,
    t = sanitize c /\ (List.length c <= n)%nat /\ (Z.of_nat n <= 10000)%Z.
Proof.
  unfold scan_at. destruct (getitem blob i) as [pl|]; [|discriminate].
  cbn [bind].
  destruct ((2 <=? pl)%Z && (pl <=? 200)%Z) eqn:Hguard; [|discriminate].
  apply andb_prop in Hguard as [_ Hguard]. apply Z.leb_le in Hguard.
  match goal with |- context [(?a <=? ?b)%nat] =>
    destruct (a <=? b)%nat; [|discriminate] end.
  intros H. apply except_unicode_decode_some in H as (c & Hc & Hk).
  exists c, (Z.to_nat pl).
  match type of Hk with (if ?g then _ else _) = _ =>
    destruct g; [|discriminate] end.
  destruct (2 <=? List.length (sanitize c))%nat; [|discriminate].
  injection Hk as <-. split; [reflexivity|].
  apply utf8_length in Hc.
  pose proof (slice_length blob (i + 1) (i + 1 + Z.to_nat pl)). lia.
Qed.

(** Whatever the blob, a text returned by the decoder is not empty, has at
    most 10000 characters, contains no character below code point 32 other
    than newline, tab and carriage return, and neither starts nor ends with
    a whitespace character. *)
Theorem decoded_text_hygiene (isalnum : Z -> bool) (blob : bytes) (t : text) :
  decode_attributed_body isalnum (Some blob) = Some t ->
  t <> []
  /\ (Z.of_nat (List.length t) <= 10000)%Z
  /\ Forall kept t
  /\ trimmed t.
Proof.
  intros H.
  assert (Hbody : decode_body isalnum blob = Ok (Some t)).
  { destruct blob as [|b0 bs]; [discriminate|].
    unfold decode_attributed_body in H.
    destruct (decode_body isalnum (b0 :: bs)) as [r|]; congruence. }
  clear H. unfold decode_body in Hbody.
  destruct (find blob NSString 0) as [pos|]; [|discriminate].
  assert (Hsrc : exists c n,
             t = sanitize c /\ (List.length c <= n)%nat
             /\ (Z.of_nat n <= 10000)%Z).
  { destruct (for_first (try_pattern blob pos) patterns) as [[t'|]|] eqn:Hpat;
      cbn [bind] in Hbody; [| |discriminate].
    - injection Hbody as ->.
      apply for_first_some in Hpat as (p & _ & Hp).
      apply (try_pattern_bound _ _ _ _ Hp).
    - apply for_first_some in Hbody as (i & _ & Hi).
      apply (scan_at_bound _ _ _ _ Hi). }
  assert (Hne : t <> []).
  { destruct (for_first (try_pattern blob pos) patterns) as [[t'|]|] eqn:Hpat;
      cbn [bind] in Hbody; [| |discriminate].
    - injection Hbody as ->.
      apply for_first_some in Hpat as (p & _ & Hp).
      destruct (try_pattern_some _ _ _ _ Hp) as (_ & _ & _ & _ & _ & Hne).
      exact Hne.
    - apply for_first_some in Hbody as (i & _ & Hi).
      destruct (scan_at_some _ _ _ _ Hi) as (_ & _ & _ & _ & _ & Hlen & _).
      intros E. rewrite E in Hlen. simpl in Hlen. lia. }
  destruct Hsrc as (c & n & -> & Hc & Hn).
  destruct (sanitize_hygiene c) as (Hkept & Htrim & Hlen).
  split; [exact Hne|]. split; [lia|]. split; assumption.
Qed.

Lemma decoded_text_hygiene_witness :
  let blob : bytes :=
    (NSString ++ [132; 1; 43; 7; 32; 104; 105; 10; 32; 0; 33]
     ++ repeat 0 11)%Z%list in
  decode_attributed_body ascii_isalnum (Some blob) = Some [104; 105]%Z
  /\ Forall kept [104; 105]%Z /\ trimmed [104; 105]%Z.
Proof.
  intros blob.
  assert (H : decode_attributed_body ascii_isalnum (Some blob)
              = Some [104; 105]%Z) by (vm_compute; reflexivity).
  split; [exact H|].
  destruct (decoded_text_hygiene ascii_isalnum blob _ H)
    as (_ & _ & Hkept & Htrim).
  split; assumption.
Defined.

(** ** Decoding a framed text *)

Lemma clean_control_kept (t : text) : Forall kept t -> clean_control t = t.
Proof.
  induction 1 as [|c r Hc _ IH]; [reflexivity|]. simpl.
  assert (Hk : (32 <=? c)%Z || is_nl_tab_cr c = true).
  { unfold is_nl_tab_cr. destruct Hc as [H|[H|[H|H]]];
      [apply Z.leb_le in H; rewrite H|subst c..]; reflexivity. }
  rewrite Hk, IH. reflexivity.
Qed.

Lemma lstrip_head (t : text) :
  match t with [] => True | c :: _ => is_space c = false end -> lstrip t = t.
Proof. destruct t as [|c r]; simpl; [auto|]. intros ->. reflexivity. Qed.

Lemma strip_trimmed (t : text) : trimmed t -> strip t = t.
Proof.
  intros [Hhd Hlast]. unfold strip, rstrip.
  rewrite (lstrip_head t Hhd), (lstrip_head (rev t) Hlast).
  apply rev_involutive.
Qed.

Lemma sanitize_clean (t : text) :
  Forall kept t -> trimmed t -> sanitize t = t.
Proof.
  intros Hk Ht. unfold sanitize.
  rewrite (clean_control_kept t Hk). apply strip_trimmed, Ht.
Qed.

Lemma find_from_skip (p : bytes) (x : Z) (pre rest : bytes) (i : nat) :
  p = x :: List.tl p ->
  Forall (fun b => b <> x) pre ->
  find_from p (pre ++ rest)%list i = find_from p rest (i + List.length pre).
Proof.
  intros Hp Hpre. revert i.
  induction Hpre as [|b pre Hb _ IH]; intros i; simpl.
  { rewrite Nat.add_0_r. reflexivity. }
  rewrite Hp. cbn [is_prefix].
  assert (E : (x =? b)%Z = false) by (apply Z.eqb_neq; congruence).
  rewrite E. cbn [andb]. rewrite <- Hp, IH. f_equal. lia.
Qed.

Lemma skipn_app_exact {A : Type} (l1 l2 : list A) :
  skipn (List.length l1) (l1 ++ l2)%list = l2.
Proof. induction l1; simpl; auto. Qed.

Lemma nth_error_app_offset {A : Type} (l1 l2 : list A) (k : nat) :
  nth_error (l1 ++ l2)%list (List.length l1 + k) = nth_error l2 k.
Proof. induction l1; simpl; auto. Qed.

Lemma slice_app_mid (x body suffix : bytes) :
  slice (x ++ body ++ suffix)%list (List.length x)
        (List.length x + List.length body)
  = body.
Proof.
  unfold slice. rewrite skipn_app_exact.
  replace (List.length x + List.length body - List.length x)%nat
    with (List.length body + 0)%nat by lia.
  rewrite List.firstn_app_2. simpl. apply List.app_nil_r.
Qed.

Lemma find_anchor (pre rest : bytes) :
  Forall (fun b => b <> 78%Z) pre ->
  find (pre ++ NSString ++ rest)%list NSString 0 = Some (List.length pre).
Proof.
  intros Hpre. unfold find.
  match goal with |- context [(0 <=? ?n)%nat] =>
    change (0 <=? n)%nat with true end.
  rewrite List.skipn_O.
  rewrite (find_from_skip NSString 78 pre _ 0 eq_refl Hpre).
  reflexivity.
Qed.

Lemma find_first_marker (pre rest : bytes) :
  find (pre ++ NSString ++ [1; 148; 132; 1; 43]%Z ++ rest)%list
       [103; 1; 148; 132; 1; 43]%Z (List.length pre)
  = Some (List.length pre + 7)%nat.
Proof.
  unfold find.
  assert (Hle : (List.length pre
                 <=? List.length
                       (pre ++ NSString
                        ++ [1; 148; 132; 1; 43]%Z ++ rest)%list)%nat
                = true).
  { apply Nat.leb_le. rewrite List.length_app. lia. }
  rewrite Hle, skipn_app_exact. cbn. f_equal. lia.
Qed.

Lemma extract_framed (x body suffix : bytes) (t : text) :
  utf8 body = Some t -> Forall kept t -> trimmed t -> t <> [] ->
  (Z.of_nat (List.length body) <= 10000)%Z ->
  extract_text (x ++ body ++ suffix)%list (Z.of_nat (List.length body))
               (List.length x)
  = Ok (Some t).
Proof.
  intros Hutf Hk Htrim Hne Hlen.
  assert (Hbody : (1 <= List.length body)%nat).
  { destruct body; [|simpl; lia]. simpl in Hutf. congruence. }
  unfold extract_text. rewrite Nat2Z.id.
  assert (Hguard : (1 <=? Z.of_nat (List.length body))%Z
                   && (Z.of_nat (List.length body) <=? 10000)%Z
                   && (List.length x + List.length body
                       <=? List.length (x ++ body ++ suffix)%list)%nat = true).
  { rewrite !andb_true_iff. repeat split.
    - apply Z.leb_le. lia.
    - apply Z.leb_le. exact Hlen.
    - apply Nat.leb_le. rewrite !List.length_app. lia. }
  rewrite Hguard, slice_app_mid. unfold decode_utf8. rewrite Hutf.
  cbn [bind]. rewrite (sanitize_clean t Hk Htrim).
  destruct t; [congruence|]. reflexivity.
Qed.

Lemma try_first_marker (pre body suffix : bytes) (sep : Z) (t : text) :
  utf8 body = Some t -> Forall kept t -> trimmed t -> t <> [] ->
  (Z.of_nat (List.length body) <= 10000)%Z ->
  try_pattern (framed_blob pre body suffix sep) (List.length pre)
              ([103; 1; 148; 132; 1; 43]%Z, 0%nat)
  = Ok (Some t).
Proof.
  intros Hutf Hk Htrim Hne Hlen.
  assert (Hbody : (1 <= List.length body)%nat).
  { destruct body; [|simpl; lia]. simpl in Hutf. congruence. }
  set (n := Z.of_nat (List.length body)) in *.
  set (head := (pre ++ NSString ++ [1; 148; 132; 1; 43]%Z)%list).
  assert (Hhead : List.length head = (List.length pre + 13)%nat).
  { unfold head. rewrite !List.length_app. reflexivity. }
  assert (Hblob : framed_blob pre body suffix sep
                  = (head ++ length_descriptor n sep ++ body ++ suffix)%list).
  { unfold framed_blob, head. fold n. rewrite <- !List.app_assoc. reflexivity. }
  unfold try_pattern. unfold framed_blob at 1. rewrite find_first_marker.
  fold n. change (List.length [103; 1; 148; 132; 1; 43]%Z) with 6%nat.
  replace (List.length pre + 7 + 6 + 0)%nat with (List.length head + 0)%nat by lia.
  rewrite Hblob.
  assert (Hget : forall k,
             getitem (head ++ length_descriptor n sep ++ body ++ suffix)%list
                     (List.length head + k)
             = getitem (length_descriptor n sep ++ body ++ suffix)%list k).
  { intros k. unfold getitem. rewrite nth_error_app_offset. reflexivity. }
  assert (Hframe : forall ld : bytes,
             extract_text (head ++ ld ++ body ++ suffix)%list n
                          (List.length head + List.length ld)
             = Ok (Some t)).
  { intros ld. rewrite List.app_assoc, <- List.length_app.
    apply extract_framed; assumption. }
  unfold length_descriptor in *.
  destruct (Z.ltb_spec n 128) as [H128|H128].
  - assert (Hlt : (List.length head + 0
                   <? List.length (head ++ [n] ++ body ++ suffix)%list)%nat
                  = true)
      by (apply Nat.ltb_lt; rewrite !List.length_app; simpl; lia).
    rewrite Hlt, Hget. cbn [List.app getitem nth_error bind].
    unfold length_field.
    destruct (Z.leb_spec 128 n); [lia|]. cbn [bind].
    replace (List.length head + 0 + 1)%nat
      with (List.length head + List.length [n])%nat by (simpl; lia).
    apply (Hframe [n]).
  - destruct (Z.ltb_spec n 256) as [H256|H256].
    + assert (Hlt : (List.length head + 0 + 2
                     <? List.length
                          (head ++ [129; n; sep]%Z ++ body ++ suffix)%list)%nat
                    = true)
        by (apply Nat.ltb_lt; rewrite !List.length_app; simpl; lia).
      assert (Hlt0 : (List.length head + 0
                     <? List.length
                          (head ++ [129; n; sep]%Z ++ body ++ suffix)%list)%nat
                    = true)
        by (apply Nat.ltb_lt; rewrite !List.length_app; simpl; lia).
      rewrite Hlt0, Hget. cbn [List.app getitem nth_error bind].
      unfold length_field. change (128 <=? 129)%Z with true.
      change (Z.land 129 127 =? 1)%Z with true. cbn [andb].
      change (head ++ 129%Z :: n :: sep :: body ++ suffix)%list
        with (head ++ [129; n; sep]%Z ++ body ++ suffix)%list.
      rewrite Hlt.
      replace (List.length head + 0 + 1)%nat with (List.length head + 1)%nat
        by lia.
      rewrite Hget. cbn [List.app getitem nth_error bind].
      replace (List.length head + 0 + 3)%nat
        with (List.length head + List.length [129; n; sep]%Z)%nat
        by (simpl; lia).
      apply (Hframe [129; n; sep]%Z).
    + assert (Hlt : (List.length head + 0 + 3
                     <? List.length
                          (head ++ [130; n mod 256; n / 256; sep]%Z
                           ++ body ++ suffix)%list)%nat
                    = true)
        by (apply Nat.ltb_lt; rewrite !List.length_app; simpl; lia).
      assert (Hlt0 : (List.length head + 0
                     <? List.length
                          (head ++ [130; n mod 256; n / 256; sep]%Z
                           ++ body ++ suffix)%list)%nat
                    = true)
        by (apply Nat.ltb_lt; rewrite !List.length_app; simpl; lia).
      rewrite Hlt0, Hget. cbn [List.app getitem nth_error bind].
      unfold length_field. change (128 <=? 130)%Z with true.
      change (Z.land 130 127 =? 1)%Z with false.
      change (Z.land 130 127 =? 2)%Z with true. cbn [andb].
      change (head ++ 130%Z :: (n mod 256)%Z :: (n / 256)%Z :: sep
                   :: body ++ suffix)%list
        with (head ++ [130; n mod 256; n / 256; sep]%Z
              ++ body ++ suffix)%list.
      rewrite Hlt.
      replace (List.length head + 0 + 1)%nat with (List.length head + 1)%nat
        by lia.
      replace (List.length head + 0 + 2)%nat with (List.length head + 2)%nat
        by lia.
      rewrite !Hget. cbn [List.app getitem nth_error bind].
      rewrite lor_shiftl_little_endian;
        [|apply Z.mod_pos_bound; lia|apply Z.div_pos; lia].
      replace (n mod 256 + 256 * (n / 256))%Z with n
        by (rewrite (Z.div_mod n 256) at 1; lia).
      replace (List.length head + 0 + 4)%nat
        with (List.length head
              + List.length [130; n mod 256; n / 256; sep]%Z)%nat
        by (simpl; lia).
      apply (Hframe [130; n mod 256; n / 256; sep]%Z).
Qed.

(** A text framed the way the decoder expects is recovered exactly: if the
    bytes before the anchor contain no letter N, and the text bytes are the
    strict UTF-8 form of a non-empty text of at most 10000 bytes without
    control characters and without surrounding whitespace, then the decoder
    returns that text, whatever follows it and for each of the three shapes
    of the length descriptor. *)
Theorem decode_framed_text (isalnum : Z -> bool)
  (pre body suffix : bytes) (sep : Z) (t : text) :
  Forall (fun b => b <> 78%Z) pre ->
  utf8 body = Some t -> Forall kept t -> trimmed t -> t <> [] ->
  (Z.of_nat (List.length body) <= 10000)%Z ->
  decode_attributed_body isalnum (Some (framed_blob pre body suffix sep))
  = Some t.
Proof.
  intros Hpre Hutf Hk Htrim Hne Hlen.
  assert (Hbody : decode_body isalnum (framed_blob pre body suffix sep)
                  = Ok (Some t)).
  { unfold decode_body. unfold framed_blob at 1. rewrite find_anchor by exact Hpre.
    unfold patterns. cbn [for_first].
    rewrite (try_first_marker pre body suffix sep t) by assumption.
    reflexivity. }
  unfold decode_attributed_body. rewrite Hbody.
  destruct (framed_blob pre body suffix sep) eqn:E; [|reflexivity].
  apply (f_equal (@List.length Z)) in E. unfold framed_blob in E.
  rewrite !List.length_app in E. simpl in E. lia.
Qed.

Lemma decode_framed_text_witness :
  let pre : bytes := [4; 11; 115; 116; 114; 101; 97; 109]%Z in
  let body : bytes := [104; 195; 169; 108; 108; 111; 33]%Z in
  let t : text := [104; 233; 108; 108; 111; 33]%Z in
  Forall (fun b => b <> 78%Z) pre
  /\ utf8 body = Some t /\ Forall kept t /\ trimmed t
  /\ decode_attributed_body ascii_isalnum
       (Some (framed_blob pre body [134; 132; 1]%Z 0))
     = Some t.
Proof.
  intros pre body t.
  assert (Hpre : Forall (fun b => b <> 78%Z) pre)
    by (repeat constructor; discriminate).
  assert (Hutf : utf8 body = Some t) by reflexivity.
  assert (Hk : Forall kept t)
    by (repeat (constructor; [left; lia|]); constructor).
  assert (Htrim : trimmed t) by (split; reflexivity).
  repeat (split; [assumption|]).
  apply decode_framed_text; try assumption; [discriminate|].
  vm_compute. discriminate.
Defined.

(** ** Group names, resolved twice and looked up *)

Lemma resolve_chat_info_fields (p2n : gmap string string) (info : ChatInfo) :
  display_name (resolve_chat_info p2n info) = display_name info
  /\ participants (resolve_chat_info p2n info) = participants info.
Proof.
  unfold resolve_chat_info. destruct (truthy (display_name info)); [auto|].
  destruct (resolved_names p2n (participants info)); auto.
Qed.

Lemma resolve_chat_info_idem (p2n : gmap string string) (info : ChatInfo) :
  resolve_chat_info p2n (resolve_chat_info p2n info)
  = resolve_chat_info p2n info.
Proof.
  destruct (resolve_chat_info_fields p2n info) as [Hd Hp].
  unfold resolve_chat_info at 1. rewrite Hd, Hp.
  unfold resolve_chat_info.
  destruct (truthy (display_name info)); [reflexivity|].
  destruct (resolved_names p2n (participants info)); reflexivity.
Qed.

(** Resolving participant names never adds or removes a group chat and never
    changes an explicit display name or a participant list; doing it twice
    gives the result of doing it once.  Looked up afterwards with
    [get_group_chat_info], a chat gives its explicit display name when it
    has one, else the name synthesised from its participants when at least
    one of them resolves, together with its participant list. *)
Theorem resolve_participant_names_stable
  (gc : gmap string ChatInfo) (p2n : gmap string string) :
  let gc' := resolve_participant_names gc p2n in
  resolve_participant_names gc' p2n = gc'
  /\ (forall chat_id, is_Some (gc' !! chat_id) <-> is_Some (gc !! chat_id))
  /\ (forall chat_id info,
        gc !! chat_id = Some info ->
        let looked_up := get_group_chat_info chat_id (mkMappings p2n gc') in
        snd looked_up = participants info
        /\ (display_name info <> "" ->
            fst looked_up = Some (display_name info))
        /\ (display_name info = "" ->
            resolved_names p2n (participants info) <> [] ->
            fst looked_up
            = Some (synthesized_name
                      (resolved_names p2n (participants info))))).
Proof.
  cbn zeta. unfold resolve_participant_names. split.
  { rewrite <- map_fmap_compose. apply map_fmap_ext.
    intros k info _. apply resolve_chat_info_idem. }
  split.
  { intros k. rewrite lookup_fmap. apply fmap_is_Some. }
  intros k info Hget. unfold get_group_chat_info. cbn [group_chats].
  rewrite lookup_fmap, Hget. cbn [fmap option_fmap option_map fst snd].
  destruct (resolve_chat_info_fields p2n info) as [Hd Hp].
  split; [exact Hp|]. rewrite Hd. split.
  - intros Hne. unfold py_or. cbn [truthy_opt].
    destruct (display_name info); [congruence|reflexivity].
  - intros He Hnames. rewrite He. unfold py_or. cbn [truthy_opt truthy].
    unfold resolve_chat_info. rewrite He. cbn [truthy].
    destruct (resolved_names p2n (participants info)); [congruence|].
    reflexivity.
Qed.

Lemma resolve_participant_names_stable_witness :
  let p2n : gmap string string := {[ "+15550000001" := "Ann" ]} in
  let info := mkChatInfo "" ["+15550000001"; "+15550000009"] None in
  let gc : gmap string ChatInfo := {[ "chat77" := info ]} in
  gc !! "chat77" = Some info
  /\ get_group_chat_info "chat77"
       (mkMappings p2n (resolve_participant_names gc p2n))
     = (Some "Ann", ["+15550000001"; "+15550000009"]).
Proof.
  intros p2n info gc.
  assert (Hget : gc !! "chat77" = Some info) by apply lookup_singleton_eq.
  split; [exact Hget|].
  destruct (resolve_participant_names_stable gc p2n) as (_ & _ & Hlook).
  destruct (Hlook "chat77" info Hget) as (Hsnd & _ & Hfst).
  cbn zeta in Hsnd, Hfst.
  specialize (Hfst eq_refl).
  assert (Hnames : resolved_names p2n (participants info) <> [])
    by (vm_compute; discriminate).
  specialize (Hfst Hnames).
  destruct (get_group_chat_info "chat77"
              (mkMappings p2n (resolve_participant_names gc p2n)))
    as [a b].
  cbn [fst snd] in Hsnd, Hfst. rewrite Hsnd, Hfst.
  vm_compute. reflexivity.
Defined.

(** ** Learned mappings and resolution *)

Lemma learn_phone_keeps (m : gmap string string) (phone name k : string) :
  is_Some (m !! k) -> is_Some (learn_phone m phone name !! k).
Proof.
  intros H. unfold learn_phone.
  destruct (truthy (strip_non_digits phone));
    rewrite ?lookup_insert_is_Some'; auto.
Qed.

Lemma learn_phone_self (m : gmap string string) (phone name : string) :
  learn_phone m phone name !! phone = Some name.
Proof.
  unfold learn_phone.
  destruct (truthy (strip_non_digits phone)); [|apply lookup_insert_eq].
  destruct (decide ("+" +:+ strip_non_digits phone = phone)) as [E|E].
  { rewrite E. apply lookup_insert_eq. }
  rewrite lookup_insert_ne by exact E.
  destruct (decide (strip_non_digits phone = phone)) as [E'|E'].
  { rewrite E' at 1. apply lookup_insert_eq. }
  rewrite lookup_insert_ne by exact E'. apply lookup_insert_eq.
Qed.

Lemma learn_phone_digits (m : gmap string string) (phone name : string) :
  strip_non_digits phone <> "" ->
  is_Some (learn_phone m phone name !! strip_non_digits phone).
Proof.
  intros Hd. unfold learn_phone.
  destruct (strip_non_digits phone) as [|c r] eqn:E; [congruence|].
  cbn [truthy]. rewrite !lookup_insert_is_Some'. right. left. reflexivity.
Qed.

Lemma update_mappings_keeps (resolved : resolved_dict)
  (m : gmap string string) (k : string) :
  is_Some (m !! k) -> is_Some (update_mappings resolved m !! k).
Proof.
  unfold update_mappings. revert m.
  induction resolved as [|e r IH]; intros m H; [exact H|].
  simpl. apply IH, learn_phone_keeps, H.
Qed.

Lemma first_hit_is_Some (m : gmap string string) (keys : list string)
  (k : string) :
  In k keys -> is_Some (m !! k) -> is_Some (first_hit m keys).
Proof.
  induction keys as [|k0 keys IH]; simpl; [contradiction|].
  intros [->|Hin] Hk.
  - destruct Hk as [n Hn]. rewrite Hn. eauto.
  - destruct (m !! k0); [eauto|auto].
Qed.

Lemma substring_all (s : string) : String.substring 0 (String.length s) s = s.
Proof. induction s as [|c r IH]; simpl; [reflexivity|]. rewrite IH. reflexivity. Qed.

Lemma last10_prefixed (d : string) :
  String.length d = 10%nat -> last10 ("1" +:+ d) = d.
Proof.
  intros H. unfold last10. change ("1" +:+ d) with (String "1" d).
  change (String.length (String "1" d)) with (S (String.length d)).
  rewrite H. change (11 - 10)%nat with 1%nat.
  change (String.substring 1 10 (String "1" d))
    with (String.substring 0 10 d).
  rewrite <- H. apply substring_all.
Qed.

Lemma resolve_contact_name_by_digits (m : gmap string string)
  (gc : gmap string ChatInfo) (phone : string) :
  strip_non_digits phone <> "" ->
  is_Some (m !! strip_non_digits phone) ->
  is_Some (resolve_contact_name phone (mkMappings m gc)).
Proof.
  intros Hd Hm. unfold resolve_contact_name. cbn [phone_to_name].
  destruct (m !! phone); [eauto|].
  rewrite probe_variants_first_hit.
  apply (first_hit_is_Some _ _ (strip_non_digits phone)); [|exact Hm].
  apply filter_In. split;
    [|destruct (strip_non_digits phone); [congruence|reflexivity]].
  unfold variants, cleaned_digits.
  destruct (Nat.eqb_spec (String.length (strip_non_digits phone)) 10)
    as [E|E].
  - assert (Hlen : (10 <=? String.length ("1" +:+ strip_non_digits phone))%nat
                   = true)
      by (change (String.length ("1" +:+ strip_non_digits phone))
            with (S (String.length (strip_non_digits phone)));
          rewrite E; reflexivity).
    rewrite Hlen, (last10_prefixed _ E). simpl. auto.
  - simpl. auto.
Qed.

Lemma resolve_contact_name_direct (m : gmap string string)
  (gc : gmap string ChatInfo) (phone : string) :
  is_Some (m !! phone) ->
  is_Some (resolve_contact_name phone (mkMappings m gc)).
Proof.
  intros [n Hn]. unfold resolve_contact_name. cbn [phone_to_name].
  rewrite Hn. eauto.
Qed.

(** What is learned can be looked up.  After one phone is learned with a
    name, resolving that phone gives that name.  After the loop over the
    resolved phones, every key that was present still is, every resolved
    phone resolves, and so does every identifier with the same non-empty
    digits as a resolved phone, however it is punctuated. *)
Theorem learned_phones_resolve
  (p2n : gmap string string) (gc : gmap string ChatInfo) :
  (forall phone name,
      resolve_contact_name phone (mkMappings (learn_phone p2n phone name) gc)
      = Some name)
  /\ (forall resolved k,
        is_Some (p2n !! k) -> is_Some (update_mappings resolved p2n !! k))
  /\ (forall resolved phone name phone',
        In (phone, name) resolved ->
        phone' = phone
        \/ (strip_non_digits phone' = strip_non_digits phone
            /\ strip_non_digits phone <> "") ->
        is_Some (resolve_contact_name phone'
                   (mkMappings (update_mappings resolved p2n) gc))).
Proof.
  split.
  { intros phone name. unfold resolve_contact_name. cbn [phone_to_name].
    rewrite learn_phone_self. reflexivity. }
  split; [intros resolved k; apply update_mappings_keeps|].
  intros resolved phone name phone' Hin Hsame.
  assert (Hkeys : is_Some (update_mappings resolved p2n !! phone)
                  /\ (strip_non_digits phone <> "" ->
                      is_Some (update_mappings resolved p2n
                               !! strip_non_digits phone))).
  { clear Hsame. unfold update_mappings. revert p2n Hin.
    induction resolved as [|e r IH]; intros p2n Hin; [contradiction|].
    simpl. destruct Hin as [->|Hin]; [|apply IH; exact Hin].
    cbn [fst snd]. split.
    - apply (update_mappings_keeps r). rewrite learn_phone_self. eauto.
    - intros Hd. apply (update_mappings_keeps r).
      apply learn_phone_digits, Hd. }
  destruct Hkeys as [Hself Hdigits].
  destruct Hsame as [->|[Heq Hne]].
  - apply resolve_contact_name_direct, Hself.
  - apply resolve_contact_name_by_digits; rewrite Heq; auto.
Qed.

Lemma learned_phones_resolve_witness :
  let resolved : resolved_dict := [("+1 (555) 987-6543", "Bob")] in
  In ("+1 (555) 987-6543", "Bob") resolved
  /\ strip_non_digits "1.555.987.6543"
     = strip_non_digits "+1 (555) 987-6543"
  /\ resolve_contact_name "1.555.987.6543"
       (mkMappings (update_mappings resolved ∅) ∅)
     = Some "Bob".
Proof.
  intros resolved.
  assert (Hin : In ("+1 (555) 987-6543", "Bob") resolved)
    by (left; reflexivity).
  assert (Hd : strip_non_digits "1.555.987.6543"
               = strip_non_digits "+1 (555) 987-6543") by reflexivity.
  split; [exact Hin|]. split; [exact Hd|].
  destruct (learned_phones_resolve ∅ ∅) as (_ & _ & Hres).
  destruct (Hres resolved _ _ "1.555.987.6543" Hin) as [n Hn].
  { right. split; [exact Hd|discriminate]. }
  rewrite Hn. vm_compute in Hn. symmetry. exact Hn.
Defined.

Lemma save_new_mappings_keeps (cs : list Contact.t)
  (m : gmap string string) (k : string) :
  is_Some (m !! k) -> is_Some (save_new_mappings cs m !! k).
Proof.
  unfold save_new_mappings. revert m.
  induction cs as [|c cs IH]; intros m H; [exact H|].
  simpl. apply IH. destruct (has_learnable_name c); [|exact H].
  destruct (truthy (Contact.phone c)
            && negb (bool_decide (is_Some (m !! Contact.phone c))));
    [apply learn_phone_keeps|]; exact H.
Qed.

(** After step 4 of the full export no key of the mapping store is lost,
    and the phone of every contact that is not a group chat, has a phone and
    has a name that is not an identifier (not empty, not starting with "+"
    or "chat", without "@") resolves to a name. *)
Theorem save_new_mappings_resolves
  (cs : list Contact.t) (p2n : gmap string string)
  (gc : gmap string ChatInfo) :
  (forall k, is_Some (p2n !! k) -> is_Some (save_new_mappings cs p2n !! k))
  /\ (forall c,
        In c cs -> has_learnable_name c = true ->
        Contact.phone c <> "" ->
        is_Some (resolve_contact_name (Contact.phone c)
                   (mkMappings (save_new_mappings cs p2n) gc))).
Proof.
  split; [intros k; apply save_new_mappings_keeps|].
  intros c Hin Hname Hphone. apply resolve_contact_name_direct.
  unfold save_new_mappings. revert p2n Hin.
  induction cs as [|c0 cs IH]; intros p2n Hin; [contradiction|].
  simpl. destruct Hin as [->|Hin]; [|apply IH; exact Hin].
  apply (save_new_mappings_keeps cs). rewrite Hname.
  assert (Ht : truthy (Contact.phone c) = true)
    by (destruct (Contact.phone c); [congruence|reflexivity]).
  rewrite Ht. cbn [andb].
  destruct (bool_decide (is_Some (p2n !! Contact.phone c))) eqn:E.
  - apply bool_decide_eq_true in E. exact E.
  - cbn [negb]. rewrite learn_phone_self. eauto.
Qed.

Lemma save_new_mappings_resolves_witness :
  let d := sample_extract [row_alice; row_other] in
  let c := Contact.mk 1 "Alice" "+15551234567" 1 false None None in
  In c (contacts d) /\ has_learnable_name c = true
  /\ Contact.phone c <> ""
  /\ resolve_contact_name "+15551234567"
       (mkMappings (save_new_mappings (contacts d) ∅) ∅)
     = Some "Alice".
Proof.
  intros d c.
  assert (Hin : In c (contacts d)) by (vm_compute; left; reflexivity).
  assert (Hname : has_learnable_name c = true) by reflexivity.
  assert (Hphone : Contact.phone c <> "") by discriminate.
  repeat (split; [assumption|]).
  destruct (save_new_mappings_resolves (contacts d) ∅ ∅) as [_ Hres].
  destruct (Hres c Hin Hname Hphone) as [n Hn].
  cbn [Contact.phone c] in Hn. rewrite Hn. vm_compute in Hn.
  symmetry. exact Hn.
Defined.

(** ** Resolving unresolved contacts *)

Lemma mem_string_In (x : string) (l : list string) :
  mem_string x l = true <-> In x l.
Proof.
  induction l as [|y l IH]; simpl; [split; [discriminate|contradiction]|].
  rewrite orb_true_iff, IH, String.eqb_eq. split; intros [H|H]; auto.
Qed.

Lemma unresolved_phones_NoDup (cs : list Contact.t) :
  List.NoDup (unresolved_phones cs).
Proof.
  unfold unresolved_phones.
  assert (H : forall acc, List.NoDup acc ->
                List.NoDup
                  (fold_left
                     (fun unresolved c =>
                        if Contact.isGroupChat c then unresolved
                        else if startswith (Contact.name c) "+"
                                || contains_char "@" (Contact.name c)
                                || startswith (Contact.name c) "chat"
                             then if truthy (Contact.phone c)
                                     && negb (mem_string (Contact.phone c)
                                                         unresolved)
                                  then (unresolved ++ [Contact.phone c])%list
                                  else unresolved
                             else unresolved)
                     cs acc)).
  { induction cs as [|c cs IH]; intros acc Hacc; [exact Hacc|].
    simpl. apply IH. destruct (Contact.isGroupChat c); [exact Hacc|].
    match goal with |- context [if ?g then _ else acc] =>
      destruct g; [|exact Hacc] end.
    destruct (truthy (Contact.phone c)); [|exact Hacc]. cbn [andb].
    destruct (mem_string (Contact.phone c) acc) eqn:E; [exact Hacc|].
    cbn [negb]. apply List.NoDup_app; [exact Hacc|repeat constructor; auto|].
    intros a Ha [<-|[]]. apply mem_string_In in Ha. congruence. }
  apply H. constructor.
Qed.

Lemma omap_length_le {A B : Type} (f : A -> option B) (l : list A) :
  (List.length (omap f l) <= List.length l)%nat.
Proof.
  induction l as [|x l IH]; [simpl; lia|].
  change (omap f (x :: l))
    with (match f x with Some y => y :: omap f l | None => omap f l end).
  destruct (f x); simpl; lia.
Qed.

(** Resolving unresolved contacts asks the oracle about pairwise distinct
    phones, about at most [limit] of them, and changes nothing but names:
    the result has the same contacts in the same order, each equal to the
    original but for its name.  With an oracle that knows nobody the contacts
    are returned as they are. *)
Theorem resolve_unresolved_contacts_renames
  (oracle : string -> option string) (cs : list Contact.t) (limit : nat) :
  List.NoDup (unresolved_phones cs)
  /\ (List.length
        (resolve_contacts_via_applescript oracle (unresolved_phones cs) limit)
      <= limit)%nat
  /\ Forall2 (fun c c' => c' = Contact.with_name c (Contact.name c'))
             cs (resolve_unresolved_contacts oracle cs limit)
  /\ ((forall p, oracle p = None) ->
      resolve_unresolved_contacts oracle cs limit = cs).
Proof.
  split; [apply unresolved_phones_NoDup|]. split.
  { unfold resolve_contacts_via_applescript.
    etransitivity; [apply omap_length_le|]. apply List.firstn_le_length. }
  assert (Hsame : forall l : list Contact.t,
             Forall2 (fun c c' => c' = Contact.with_name c (Contact.name c'))
                     l l).
  { induction l as [|c l IH]; constructor; [destruct c; reflexivity|exact IH]. }
  split.
  - unfold resolve_unresolved_contacts.
    destruct (unresolved_phones cs); [apply Hsame|].
    destruct (resolve_contacts_via_applescript oracle _ limit) as [|e d];
      [apply Hsame|].
    clear Hsame. induction cs as [|c cs IH]; simpl; constructor; [|exact IH].
    unfold rename_contact.
    destruct (resolved_get (e :: d) (Contact.phone c));
      [destruct c; reflexivity|].
    destruct (resolved_by_digits (e :: d) _); destruct c; reflexivity.
  - intros Hnone. unfold resolve_unresolved_contacts.
    destruct (unresolved_phones cs) as [|p ps]; [reflexivity|].
    assert (E : resolve_contacts_via_applescript oracle (p :: ps) limit = []).
    { unfold resolve_contacts_via_applescript.
      induction (firstn limit (p :: ps)) as [|x l IH]; [reflexivity|].
      simpl. rewrite Hnone. exact IH. }
    rewrite E. reflexivity.
Qed.

Lemma resolve_unresolved_contacts_renames_witness :
  let cs := contacts (sample_extract [row_other; row_alice]) in
  (forall p, no_oracle p = None)
  /\ resolve_unresolved_contacts no_oracle cs 50 = cs
  /\ unresolved_phones cs = ["+15559876543"].
Proof.
  intros cs.
  assert (Hnone : forall p, no_oracle p = None) by reflexivity.
  split; [exact Hnone|]. split; [|vm_compute; reflexivity].
  destruct (resolve_unresolved_contacts_renames no_oracle cs 50)
    as (_ & _ & _ & Hsame).
  exact (Hsame Hnone).
Defined.

(** ** Mappings extracted from the data file *)

Lemma json_step_keeps (m : gmap string string) (c : Contact.t) (k : string) :
  is_Some (m !! k) -> is_Some (json_step m c !! k).
Proof.
  intros H. unfold json_step.
  destruct (json_learnable c); [|exact H].
  destruct (truthy (Contact.phone c)); [|exact H].
  destruct (truthy (SaveContactMappings.clean_phone_number (Contact.phone c)));
    [|rewrite lookup_insert_is_Some'; auto].
  destruct (10 <=? String.length _)%nat;
    rewrite ?lookup_insert_is_Some'; auto 6.
Qed.

Lemma fold_json_step_keeps (cs : list Contact.t) (m : gmap string string)
  (k : string) :
  is_Some (m !! k) -> is_Some (fold_left json_step cs m !! k).
Proof.
  revert m. induction cs as [|c cs IH]; intros m H; [exact H|].
  simpl. apply IH, json_step_keeps, H.
Qed.

Lemma json_step_keys (m : gmap string string) (c : Contact.t) :
  json_learnable c = true -> Contact.phone c <> "" ->
  is_Some (json_step m c !! Contact.phone c)
  /\ (cleaned_digits (Contact.phone c) <> "" ->
      is_Some (json_step m c !! cleaned_digits (Contact.phone c))).
Proof.
  intros Hl Hp. unfold json_step. rewrite Hl.
  assert (Ht : truthy (Contact.phone c) = true)
    by (destruct (Contact.phone c); [congruence|reflexivity]).
  rewrite Ht, scm_clean_phone_number_digits.
  destruct (cleaned_digits (Contact.phone c)) as [|a r] eqn:E.
  { cbn [truthy]. split; [rewrite lookup_insert_eq; eauto|congruence]. }
  cbn [truthy].
  destruct (10 <=? String.length (String a r))%nat;
    split; intros; rewrite ?lookup_insert_is_Some'; auto 6.
Qed.

Lemma json_step_values (m : gmap string string) (c : Contact.t)
  (k n : string) :
  json_step m c !! k = Some n ->
  m !! k = Some n \/ (n = Contact.name c /\ json_learnable c = true).
Proof.
  unfold json_step. destruct (json_learnable c); [|auto].
  destruct (truthy (Contact.phone c)); [|auto].
  assert (Hins : forall (m' : gmap string string) k',
             <[ k' := Contact.name c ]> m' !! k = Some n ->
             m' !! k = Some n \/ (n = Contact.name c /\ true = true)).
  { intros m' k'. rewrite lookup_insert.
    destruct (decide (k' = k)); [intros H; injection H as <-|]; auto. }
  destruct (truthy (SaveContactMappings.clean_phone_number (Contact.phone c))).
  - destruct (10 <=? String.length _)%nat; intros H;
      repeat (apply Hins in H as [H|H]; [|right; exact H]); auto.
  - intros H. apply Hins in H. exact H.
Qed.

Lemma resolve_contact_name_by_canonical (m : gmap string string)
  (gc : gmap string ChatInfo) (phone : string) :
  cleaned_digits phone <> "" ->
  is_Some (m !! cleaned_digits phone) ->
  is_Some (resolve_contact_name phone (mkMappings m gc)).
Proof.
  intros Hd Hm. unfold resolve_contact_name. cbn [phone_to_name].
  destruct (m !! phone); [eauto|].
  rewrite probe_variants_first_hit.
  apply (first_hit_is_Some _ _ (cleaned_digits phone)); [|exact Hm].
  apply filter_In. split;
    [|destruct (cleaned_digits phone); [congruence|reflexivity]].
  unfold variants. simpl. auto.
Qed.

(** The store extracted from the data file holds only names of contacts that
    pass the tests of the loop (a name that is not an identifier, not a group
    chat), and it serves every such contact with a phone: the phone itself
    resolves, and so does every identifier with the same canonical digits
    (the digits, with "1" in front when there are ten of them), so that a
    number is found with or without its formatting and its leading 1. *)
Theorem extract_contacts_from_json_sound_and_complete
  (cs : list Contact.t) (gc : gmap string ChatInfo) :
  let store := extract_contacts_from_json cs in
  (forall k n,
      store !! k = Some n ->
      exists c, In c cs /\ Contact.name c = n /\ json_learnable c = true)
  /\ (forall c phone',
        In c cs -> json_learnable c = true -> Contact.phone c <> "" ->
        phone' = Contact.phone c
        \/ (cleaned_digits phone' = cleaned_digits (Contact.phone c)
            /\ cleaned_digits (Contact.phone c) <> "") ->
        is_Some (resolve_contact_name phone' (mkMappings store gc))).
Proof.
  cbn zeta. unfold extract_contacts_from_json. split.
  - assert (H : forall (l : list Contact.t) (m : gmap string string),
               (forall c, In c l -> In c cs) ->
               (forall k n, m !! k = Some n ->
                  exists c, In c cs /\ Contact.name c = n
                            /\ json_learnable c = true) ->
               forall k n, fold_left json_step l m !! k = Some n ->
                 exists c, In c cs /\ Contact.name c = n
                           /\ json_learnable c = true).
    { induction l as [|c l IH]; intros m Hsub Hm k n; [apply Hm|].
      simpl. apply IH; [intros c' Hc'; apply Hsub; right; exact Hc'|].
      intros k' n' Hk'. apply json_step_values in Hk' as [Hk'|[-> Hl]];
        [apply (Hm _ _ Hk')|].
      exists c. split; [apply Hsub; left; reflexivity|auto]. }
    apply (H cs ∅); [auto|]. intros k n Hk. rewrite lookup_empty in Hk.
    discriminate.
  - intros c phone' Hin Hl Hp Hsame.
    assert (Hkeys : is_Some (fold_left json_step cs ∅ !! Contact.phone c)
                    /\ (cleaned_digits (Contact.phone c) <> "" ->
                        is_Some (fold_left json_step cs ∅
                                 !! cleaned_digits (Contact.phone c)))).
    { clear Hsame. generalize (∅ : gmap string string) as m. revert Hin.
      induction cs as [|c0 cs IH]; intros Hin m; [contradiction|].
      simpl. destruct Hin as [->|Hin]; [|apply IH; exact Hin].
      destruct (json_step_keys m c Hl Hp) as [H1 H2].
      split; [|intros Hd]; apply fold_json_step_keeps; auto. }
    destruct Hkeys as [Hself Hcanon].
    destruct Hsame as [->|[Heq Hne]].
    + apply resolve_contact_name_direct, Hself.
    + apply resolve_contact_name_by_canonical; rewrite Heq; auto.
Qed.

Lemma extract_contacts_from_json_sound_and_complete_witness :
  let c := Contact.mk 3 "Carol" "(555) 222-3333" 4 false None None in
  let cs := [Contact.mk 1 "+15550001111" "+15550001111" 9 false None None; c] in
  In c cs /\ json_learnable c = true /\ Contact.phone c <> ""
  /\ cleaned_digits "+1 555 222 3333" = cleaned_digits (Contact.phone c)
  /\ resolve_contact_name "+1 555 222 3333"
       (mkMappings (extract_contacts_from_json cs) ∅)
     = Some "Carol".
Proof.
  intros c cs.
  assert (Hin : In c cs) by (right; left; reflexivity).
  assert (Hl : json_learnable c = true) by reflexivity.
  assert (Hp : Contact.phone c <> "") by discriminate.
  assert (Hd : cleaned_digits "+1 555 222 3333"
               = cleaned_digits (Contact.phone c)) by reflexivity.
  repeat (split; [assumption|]).
  destruct (extract_contacts_from_json_sound_and_complete cs ∅) as [_ Hres].
  destruct (Hres c "+1 555 222 3333" Hin Hl Hp) as [n Hn].
  { right. split; [exact Hd|discriminate]. }
  rewrite Hn. vm_compute in Hn. symmetry. exact Hn.
Defined.
